(** * leetcode_sorter: normalisation, scoring, ranking and the cache

    A shallow embedding of [leetcode_sorter.py].

    Conventions of the embedding.
    - Python [int] is [Z] (unbounded on both sides).
    - JSON data, as [json.load] and [response.json()] return it, is the
      inductive type [json]; Python's [None] is [JNull].
    - A Python [float] that only takes part in truncation, subtraction and
      comparison (JSON numbers, time stamps, the acceptance rate) is the
      rational it denotes ([Q]); infinities and NaN of JSON input are kept
      apart in [pyfloat].  The score, which goes through [math.log1p], is
      a real number ([R]).  In both cases the rounding error of binary64
      arithmetic is left out of the model.
    - An uncaught exception is the [Raise] outcome of [result]; [print]
      is not modelled.  The conversion of an [int] to a float, in a true
      division or in [math.log1p], raises [OverflowError] when the
      result is out of the range of binary64.
    - The dictionaries built by [process_problems] are mutable objects
      shared between [problems], [scored_problems] and [sorted_problems];
      they live in a [heap] and are passed around as addresses. *)

From Stdlib Require Import ZArith QArith Qabs Qreals Reals Lra Lia.
From Stdlib Require Import String Ascii List DecimalString Sorted Permutation.
From stdpp Require Import base option list.
Import ListNotations.

Set Warnings "-register-all".

Local Open Scope string_scope.
Local Open Scope list_scope.
Local Open Scope Z_scope.

(** ** Exceptions and outcomes *)

Inductive exn : Set :=
| AttributeError | TypeError | ValueError | OverflowError
| KeyError | OSError | JSONDecodeError | RecursionError.

Inductive result (A : Type) : Type :=
| Ok (a : A)
| Raise (e : exn).
Arguments Ok {A} a.
Arguments Raise {A} e.

#[global] Instance result_ret : MRet result := fun A a => Ok a.
#[global] Instance result_bind : MBind result := fun A B f r =>
  match r with
  | Ok a => f a
  | Raise e => Raise e
  end.

(** ** JSON values *)

Inductive pyfloat : Set :=
| FFinite (q : Q)
| FInf (negative : bool)
| FNan.

Inductive json : Set :=
| JNull
| JBool (b : bool)
| JInt (n : Z)
| JFloat (f : pyfloat)
| JStr (s : string)
| JList (l : list json)
| JDict (d : list (string * json)).

(** [d.get(k)] on the entries of a dictionary; keys of a Python
    dictionary are unique, so the first match is the match. *)
Fixpoint dict_get {V : Type} (d : list (string * V)) (k : string) : option V :=
  match d with
  | [] => None
  | (k', v) :: d' => if String.eqb k' k then Some v else dict_get d' k
  end.

(** Python truth value of a JSON value. *)
Definition truthy (v : json) : bool :=
  match v with
  | JNull => false
  | JBool b => b
  | JInt n => negb (n =? 0)
  | JFloat (FFinite q) => negb (Qeq_bool q 0)
  | JFloat _ => true
  | JStr s => match s with EmptyString => false | _ => true end
  | JList l => match l with [] => false | _ => true end
  | JDict d => match d with [] => false | _ => true end
  end.

(** [v.get(k, default)]: only dictionaries have the method. *)
Definition field (d : list (string * json)) (k : string) (default : json) : json :=
  from_option (fun x => x) default (dict_get d k).

Definition py_get (v : json) (k : string) (default : json) : result json :=
  match v with
  | JDict d => Ok (field d k default)
  | _ => Raise AttributeError
  end.

(** The value a raw record holds under [key] in the dictionary it has
    under [block], when both are there. *)
Definition raw_field (r : json) (block key : string) : option json :=
  match r with
  | JDict pd =>
      match dict_get pd block with
      | Some (JDict b) => dict_get b key
      | _ => None
      end
  | _ => None
  end.

(** [v == s] for a string literal [s]. *)
Definition eq_str (v : json) (s : string) : bool :=
  match v with
  | JStr s' => String.eqb s' s
  | _ => false
  end.

(** The two library functions whose text-level behaviour the program
    relies on without fixing it: [int(s)] on a [str] ([None] stands for
    [ValueError]) and [str(v)] on a value that is not a [str], as an
    f-string renders it. *)
Class Builtins : Type := {
  int_of_str : string -> option Z;
  str_of_nonstr : json -> string
}.

Section Program.
Context `{Builtins}.

(** [int(v)]. *)
Definition py_int (v : json) : result Z :=
  match v with
  | JNull => Raise TypeError
  | JBool b => Ok (if b then 1 else 0)
  | JInt n => Ok n
  | JFloat (FFinite q) => Ok (Z.quot (Qnum q) (Zpos (Qden q)))
  | JFloat (FInf _) => Raise OverflowError
  | JFloat FNan => Raise ValueError
  | JStr s => match int_of_str s with Some n => Ok n | None => Raise ValueError end
  | JList _ | JDict _ => Raise TypeError
  end.

(** [f"{v}"]. *)
Definition py_str (v : json) : string :=
  match v with
  | JStr s => s
  | _ => str_of_nonstr v
  end.

(** [a / b] on two [int]s with [b] positive: the quotient, or
    [OverflowError] when it rounds to a binary64 infinity, which is from
    [2^1024 - 2^970] on. *)
Definition float_overflow : Q := inject_Z (2 ^ 1024 - 2 ^ 970).

Definition py_truediv (a b : Z) : result Q :=
  let q := Qmake a (Z.to_pos b) in
  if Qle_bool float_overflow (Qabs q) then Raise OverflowError else Ok q.

(** ** Configuration *)

Definition DIFFICULTY_SCORE_BASE_MAP : list (string * Z) :=
  [("Easy", 80); ("Medium", 200); ("Hard", 450)].

Definition WEIGHTS : list (string * Z) :=
  [("acceptance_rate_impact", 300);
   ("low_total_accepted_penalty", 150);
   ("high_popularity_discount", -80);
   ("newness_premium", 70)].

Definition DIFFICULTY_API_MAP : list (Z * string) :=
  [(1, "Easy"); (2, "Medium"); (3, "Hard")].

(** [d.get(k)] on a dictionary with integer keys. *)
Fixpoint int_dict_get {V : Type} (d : list (Z * V)) (k : Z) : option V :=
  match d with
  | [] => None
  | (k', v) :: d' => if k' =? k then Some v else int_dict_get d' k
  end.

Definition CACHE_EXPIRY_DAYS : Z := 1.

(** ** The canonical item *)

Record problem : Type := {
  id : Z;
  title : json;
  slug : json;
  difficulty : string;
  totalAccepted : Z;
  totalSubmissions : Z;
  acceptanceRate : Q;
  url : string;
  trueDifficultyScore : option R
}.

(** ** process_problems *)

(** The body of the [try] block for one record: [Ok None] is [continue],
    [Ok (Some p)] is the dictionary appended to [processed]. *)
Definition try_body (stat difficulty_info : json) : result (option problem) :=
  v ← py_get stat "frontend_question_id" (JInt 0);
  frontend_id ← py_int v;
  title ← py_get stat "question__title" (JStr "N/A");
  slug ← py_get stat "question__title_slug" (JStr "N/A");
  v ← py_get stat "total_acs" (JInt 0);
  total_accepted_val ← py_int v;
  v ← py_get stat "total_submitted" (JInt 0);
  total_submitted_val ← py_int v;
  v ← py_get difficulty_info "level" (JInt 0);
  difficulty_level ← py_int v;
  if eq_str slug "N/A" || (frontend_id =? 0) || (difficulty_level =? 0)
  then Ok None
  else
    acceptance_rate ←
      (if 0 <? total_submitted_val
       then py_truediv total_accepted_val total_submitted_val
       else Ok 0%Q);
    let difficulty_str :=
      from_option (fun x => x) "Unknown"
        (int_dict_get DIFFICULTY_API_MAP difficulty_level) in
    if String.eqb difficulty_str "Unknown" then Ok None
    else
      Ok (Some {| id := frontend_id;
                  title := title;
                  slug := slug;
                  difficulty := difficulty_str;
                  totalAccepted := total_accepted_val;
                  totalSubmissions := total_submitted_val;
                  acceptanceRate := acceptance_rate;
                  url := ("https://leetcode.com/problems/" ++ py_str slug ++ "/")%string;
                  trueDifficultyScore := None |}).

(** One iteration of the loop, with the [except (TypeError, ValueError)]
    clause around [try_body]. *)
Definition process_record (prob_data : json) : result (option problem) :=
  stat ← py_get prob_data "stat" JNull;
  difficulty_info ← py_get prob_data "difficulty" JNull;
  if negb (truthy stat) || negb (truthy difficulty_info) then Ok None
  else
    paid_only ← py_get prob_data "paid_only" (JBool false);
    if truthy paid_only then Ok None
    else
      match try_body stat difficulty_info with
      | Raise TypeError | Raise ValueError => Ok None
      | r => r
      end.

(** The records the filter is meant for: no identifier or the
    identifier zero, no slug, a level that is not one of the three. *)
Definition identifier_missing_or_zero (r : json) : Prop :=
  match raw_field r "stat" "frontend_question_id" with
  | None => True
  | Some v => py_int v = Ok 0
  end.

Definition slug_missing (r : json) : Prop :=
  match raw_field r "stat" "question__title_slug" with
  | None => True
  | Some v => v = JStr "N/A"
  end.

Definition slug_empty (r : json) : Prop :=
  raw_field r "stat" "question__title_slug" = Some (JStr "").

Definition tier_unknown (r : json) : Prop :=
  match raw_field r "difficulty" "level" with
  | None => True
  | Some v => forall n, py_int v = Ok n -> int_dict_get DIFFICULTY_API_MAP n = None
  end.

(** What holds of the rate of an item by construction. *)
Definition rate_ok (p : problem) : Prop :=
  (0 < totalSubmissions p ->
   (acceptanceRate p == inject_Z (totalAccepted p) / inject_Z (totalSubmissions p))%Q) /\
  (totalSubmissions p <= 0 -> acceptanceRate p = 0%Q) /\
  (0 <= totalAccepted p <= totalSubmissions p ->
   (0 <= acceptanceRate p <= 1)%Q).

Fixpoint process_loop (l : list json) (processed : list problem)
    (max_frontend_id max_submissions max_accepted : Z)
    : result (list problem * Z * Z * Z) :=
  match l with
  | [] => Ok (processed, max_frontend_id, max_submissions, max_accepted)
  | prob_data :: rest =>
      r ← process_record prob_data;
      match r with
      | None =>
          process_loop rest processed max_frontend_id max_submissions max_accepted
      | Some p =>
          process_loop rest (processed ++ [p])
            (Z.max max_frontend_id (id p))
            (Z.max max_submissions (totalSubmissions p))
            (Z.max max_accepted (totalAccepted p))
      end
  end.

Definition process_problems (raw_problems_list : list json)
    : result (list problem * Z * Z * Z) :=
  match raw_problems_list with
  | [] => Ok ([], 0, 0, 0)
  | _ =>
      '(processed, max_frontend_id, max_submissions, max_accepted) ←
        process_loop raw_problems_list [] 0 0 0;
      Ok (processed, Z.max 1 max_frontend_id, Z.max 1 max_submissions,
          Z.max 1 max_accepted)
  end.

End Program.

(** ** calculate_true_difficulty_score *)

Local Open Scope R_scope.

Definition Rltb (x y : R) : bool := if Rlt_dec x y then true else false.

(** [math.log1p]. *)
Definition log1p (x : R) : R := ln (1 + x).

(** [round(x)] to the nearest integer, a tie going to the even one. *)
Definition round_half_even (y : R) : Z :=
  let f := Int_part y in
  let d := y - IZR f in
  if Rltb d (1 / 2) then f
  else if Rltb (1 / 2) d then (f + 1)%Z
  else if Z.even f then f else (f + 1)%Z.

(** [round(x, 2)]. *)
Definition round2 (x : R) : R := IZR (round_half_even (x * 100)) / 100.

(** [DIFFICULTY_SCORE_BASE_MAP.get(d, 0)] and [WEIGHTS[k]]; the four
    keys the program uses are all in [WEIGHTS]. *)
Definition base_score (d : string) : Z :=
  from_option (fun x => x) 0%Z (dict_get DIFFICULTY_SCORE_BASE_MAP d).

Definition weight (k : string) : Z :=
  from_option (fun x => x) 0%Z (dict_get WEIGHTS k).

(** [math.log1p(n)] on an [int]: the argument is converted to a float
    first, which raises [OverflowError] from [2^1024 - 2^970] on in
    absolute value; from -1 downwards the logarithm has no value. *)
Definition too_large (n : Z) : bool :=
  Qle_bool float_overflow (Qabs (inject_Z n)).

Definition py_log1p (n : Z) : result R :=
  if too_large n then Raise OverflowError
  else if (n <=? -1)%Z then Raise ValueError
  else Ok (log1p (IZR n)).

(** The five [score += ...] statements, each as a function of the
    running [score]: the value the statement leaves when it raises
    nothing. *)
Definition add_base (p : problem) (score : R) : R :=
  score + IZR (base_score (difficulty p)).

Definition add_acceptance (p : problem) (score : R) : R :=
  let acceptance_factor := 1 - Q2R (acceptanceRate p) in
  score + acceptance_factor * IZR (weight "acceptance_rate_impact").

Definition add_low_accepted (p : problem) (max_accepted_log : R) (score : R) : R :=
  if (0 <=? totalAccepted p)%Z && Rltb 0 max_accepted_log then
    let log_norm_accepted := log1p (IZR (totalAccepted p)) / max_accepted_log in
    let low_accepted_factor := 1 - log_norm_accepted in
    score + low_accepted_factor * IZR (weight "low_total_accepted_penalty")
  else score.

Definition add_popularity (p : problem) (max_submissions_log : R) (score : R) : R :=
  if (0 <? totalSubmissions p)%Z && Rltb 0 max_submissions_log then
    let log_norm_submissions :=
      log1p (IZR (totalSubmissions p)) / max_submissions_log in
    score + log_norm_submissions * IZR (weight "high_popularity_discount")
  else score.

Definition add_newness (p : problem) (max_frontend_id : Z) (score : R) : R :=
  if (0 <? max_frontend_id)%Z then
    let norm_id := IZR (id p) / IZR max_frontend_id in
    score + norm_id * IZR (weight "newness_premium")
  else score.

(** The value of [score] when line 188 rounds it, and the value line
    188 stores, on the runs that reach the line. *)
Definition raw_score (p : problem) (max_frontend_id : Z)
    (max_submissions_log max_accepted_log : R) : R :=
  add_newness p max_frontend_id
    (add_popularity p max_submissions_log
       (add_low_accepted p max_accepted_log
          (add_acceptance p (add_base p 0)))).

Definition true_difficulty_score (p : problem) (max_frontend_id : Z)
    (max_submissions_log max_accepted_log : R) : R :=
  round2 (raw_score p max_frontend_id max_submissions_log max_accepted_log).

(** Lines 155 to 188 as they run.  The logarithm of a count and the
    quotient of the ids are taken on [int]s and raise [OverflowError]
    when the float they need is out of range. *)
Definition low_accepted_step (p : problem) (max_accepted_log : R) (score : R)
    : result R :=
  if (0 <=? totalAccepted p)%Z && Rltb 0 max_accepted_log then
    l ← py_log1p (totalAccepted p);
    let log_norm_accepted := l / max_accepted_log in
    let low_accepted_factor := 1 - log_norm_accepted in
    Ok (score + low_accepted_factor * IZR (weight "low_total_accepted_penalty"))
  else Ok score.

Definition popularity_step (p : problem) (max_submissions_log : R) (score : R)
    : result R :=
  if (0 <? totalSubmissions p)%Z && Rltb 0 max_submissions_log then
    l ← py_log1p (totalSubmissions p);
    let log_norm_submissions := l / max_submissions_log in
    Ok (score + log_norm_submissions * IZR (weight "high_popularity_discount"))
  else Ok score.

Definition newness_step (p : problem) (max_frontend_id : Z) (score : R)
    : result R :=
  if (0 <? max_frontend_id)%Z then
    norm_id ← py_truediv (id p) max_frontend_id;
    Ok (score + Q2R norm_id * IZR (weight "newness_premium"))
  else Ok score.

Definition rounded_score (p : problem) (max_frontend_id : Z)
    (max_submissions_log max_accepted_log : R) : result R :=
  let score := 0 in
  let score := score + IZR (base_score (difficulty p)) in
  let acceptance_factor := 1 - Q2R (acceptanceRate p) in
  let score := score + acceptance_factor * IZR (weight "acceptance_rate_impact") in
  score ← low_accepted_step p max_accepted_log score;
  score ← popularity_step p max_submissions_log score;
  score ← newness_step p max_frontend_id score;
  Ok (round2 score).

(** The inputs on which one of the three conversions overflows. *)
Definition score_overflows (p : problem) (max_frontend_id : Z)
    (max_submissions_log max_accepted_log : R) : bool :=
  (0 <=? totalAccepted p)%Z && Rltb 0 max_accepted_log
    && too_large (totalAccepted p)
  || (0 <? totalSubmissions p)%Z && Rltb 0 max_submissions_log
    && too_large (totalSubmissions p)
  || (0 <? max_frontend_id)%Z
    && Qle_bool float_overflow (Qabs (id p # Z.to_pos max_frontend_id)).

(** [problem['trueDifficultyScore'] = s] on a dictionary. *)
Definition set_trueDifficultyScore (p : problem) (s : R) : problem :=
  {| id := id p;
     title := title p;
     slug := slug p;
     difficulty := difficulty p;
     totalAccepted := totalAccepted p;
     totalSubmissions := totalSubmissions p;
     acceptanceRate := acceptanceRate p;
     url := url p;
     trueDifficultyScore := Some s |}.

(** The dictionaries live in a heap; a reference is an index into it. *)
Definition heap : Type := list problem.

(** The function takes a reference, stores the score in the object it
    points to and returns the same reference.  An exception leaves
    before line 188: nothing has been stored then, and the heap of the
    caller is the one before the call.  Every reference the program
    holds is allocated; on any other index the heap is left as it is. *)
Definition calculate_true_difficulty_score (h : heap) (problem : nat)
    (max_frontend_id : Z) (max_submissions_log max_accepted_log : R)
    : result (heap * nat) :=
  match h !! problem with
  | Some p =>
      score ← rounded_score p max_frontend_id max_submissions_log
                max_accepted_log;
      Ok (<[problem := set_trueDifficultyScore p score]> h, problem)
  | None => Ok (h, problem)
  end.




(** Lines 223 and 224.  [max_log] is the line as it runs: the
    logarithm is taken on an [int] and raises [OverflowError] on a
    maximum out of the range of a float.  [max_log_val] is the number
    the line passes on to the scoring when it raises nothing. *)
Definition max_log (m : Z) : result R :=
  if (0 <? m)%Z then py_log1p m else Ok 1.

Definition max_log_val (m : Z) : R :=
  if (0 <? m)%Z then log1p (IZR m) else 1.

(** ** sorted(..., key=..., reverse=True) *)

Section Sorted.
Context {A : Type} (key : A -> R).

(** Python's sort is stable, and stays so under [reverse=True]: elements
    with equal keys keep the order of the input.  Order and stability
    fix the result, so straight insertion computes what Timsort does. *)
Fixpoint insert_desc (x : A) (l : list A) : list A :=
  match l with
  | [] => [x]
  | y :: l' => if Rltb (key x) (key y) then y :: insert_desc x l' else x :: l
  end.

Fixpoint sorted_desc (l : list A) : list A :=
  match l with
  | [] => []
  | x :: l' => insert_desc x (sorted_desc l')
  end.

End Sorted.




(** [p['trueDifficultyScore']] through a reference. *)
Definition score_key (h : heap) (a : nat) : result R :=
  match h !! a with
  | Some p =>
      match trueDifficultyScore p with
      | Some s => Ok s
      | None => Raise KeyError
      end
  | None => Raise KeyError
  end.

(** What the field 'trueDifficultyScore' of the object behind a
    reference holds (0 when there is no such object or no such field). *)
Definition stored_score (h : heap) (a : nat) : R :=
  match h !! a with
  | Some p =>
      match trueDifficultyScore p with
      | Some s => s
      | None => 0
      end
  | None => 0
  end.

(** Line 234.  The keys are computed first, once per element, and the
    sort then runs on them. *)
Definition sorted_problems (h : heap) (scored_problems : list nat)
    : result (list nat) :=
  keyed ← mapM (fun a => s ← score_key h a; Ok (s, a)) scored_problems;
  Ok (map snd (sorted_desc fst keyed)).

(** ** The cache file *)

Local Open Scope Z_scope.

(** What [json.load] finds in the file: a complete JSON document
    ([Document v] is the text [json.dump] writes for [v], which decodes
    to [v]), or text it rejects, either because the document was cut
    short (down to an empty file) or because it never was one. *)
Inductive content : Set :=
| Document (v : json)
| Incomplete
| Malformed.

Record cache_file : Set := {
  body : content;
  mtime : Q;
  readable : bool
}.

(** [CACHE_FILE] and whether [open(CACHE_FILE, 'w')] is permitted. *)
Record filesystem : Set := {
  entry : option cache_file;
  can_open_w : bool
}.

Definition expiry_seconds : Q := inject_Z (CACHE_EXPIRY_DAYS * 24 * 60 * 60).

Definition Qltb (x y : Q) : bool := negb (Qle_bool y x).

Definition json_load (c : content) : result json :=
  match c with
  | Document v => Ok v
  | Incomplete | Malformed => Raise JSONDecodeError
  end.

(** Line 81; [now] is what [time.time()] returns. *)
Definition cache_fresh (f : cache_file) (now : Q) : bool :=
  let cache_mod_time := mtime f in
  Qltb (now - cache_mod_time) expiry_seconds.

Definition load_problems_from_cache (fs : filesystem) (now : Q) : result json :=
  match entry fs with
  | Some f =>
      if cache_fresh f now then
        if readable f then json_load (body f) else Raise OSError
      else Ok JNull
  | None => Ok JNull
  end.

(** The two situations a load can meet besides a usable cache: no file
    or a file past its expiry, and a file within expiry that cannot be
    opened or does not hold a JSON document. *)
Definition cache_absent_or_expired (fs : filesystem) (now : Q) : Prop :=
  match entry fs with
  | None => True
  | Some f => cache_fresh f now = false
  end.

Definition cache_unreadable (fs : filesystem) (now : Q) (e : exn) : Prop :=
  exists f, entry fs = Some f /\ cache_fresh f now = true /\
    (readable f = false /\ e = OSError \/
     readable f = true /\ json_load (body f) = Raise e).

(** [len(v)], for the values that have one.  The program only prints
    it; what matters is whether the call raises. *)
Definition py_len (v : json) : result nat :=
  match v with
  | JStr s => Ok (String.length s)
  | JList l => Ok (List.length l)
  | JDict d => Ok (List.length d)
  | _ => Raise TypeError
  end.

(** Whether the cache file, created if need be, can be read back: an
    existing file keeps its permissions, a new one is readable. *)
Definition cache_readable (fs : filesystem) : bool :=
  from_option readable true (entry fs).

(** [open(CACHE_FILE, 'w')] creates the file or empties the one that is
    there. *)
Definition cache_open_w (now : Q) (fs : filesystem) : filesystem :=
  {| entry := Some {| body := Incomplete;
                      mtime := now;
                      readable := cache_readable fs |};
     can_open_w := can_open_w fs |}.

(** [json.dump] into the open file and the end of the [with] block:
    the document is complete once the file is closed. *)
Definition cache_dump_close (problems : json) (now : Q) (fs : filesystem)
    : filesystem :=
  {| entry := Some {| body := Document problems;
                      mtime := now;
                      readable := cache_readable fs |};
     can_open_w := can_open_w fs |}.

(** The states the file system goes through during a call that is not
    refused: before the call, with the file open, after the call. *)
Definition save_states (fs : filesystem) (problems : json) (now : Q)
    : list filesystem :=
  [fs; cache_open_w now fs; cache_dump_close problems now (cache_open_w now fs)].

Definition save_problems_to_cache (fs : filesystem) (problems : json) (now : Q)
    : filesystem * result unit :=
  match py_len problems with
  | Raise e => (fs, Raise e)
  | Ok _ =>
      if can_open_w fs
      then (cache_dump_close problems now (cache_open_w now fs), Ok ())
      else (fs, Raise OSError)
  end.

(** ** fetch_problems_from_api_rest *)

(** What the request comes back with: an exception of [requests], a
    body that is not JSON, a decoded body, or a body on which the
    decoder gives up with an exception that is neither of the two the
    function catches: [ValueError] on an integer literal with more
    digits than the interpreter converts, [RecursionError] on a nesting
    too deep. *)
Inductive decoder_limit : Set :=
| DigitLimit
| NestingLimit.

Inductive http_response : Set :=
| RequestFailed
| NotJson
| Payload (data : json)
| Undecoded (l : decoder_limit).

Definition limit_exn (l : decoder_limit) : exn :=
  match l with
  | DigitLimit => ValueError
  | NestingLimit => RecursionError
  end.

Fixpoint contains (pat s : string) : bool :=
  String.prefix pat s ||
  match s with
  | EmptyString => false
  | String _ s' => contains pat s'
  end.

(** ["stat_status_pairs" in data], then [data["stat_status_pairs"]]. *)
Definition fetch_problems_from_api_rest (r : http_response) : result json :=
  match r with
  | RequestFailed | NotJson => Ok JNull
  | Payload data =>
      match data with
      | JDict d =>
          match dict_get d "stat_status_pairs" with
          | Some v => Ok v
          | None => Ok JNull
          end
      | JList l =>
          if existsb (fun v => eq_str v "stat_status_pairs") l
          then Raise TypeError else Ok JNull
      | JStr s =>
          if contains "stat_status_pairs" s then Raise TypeError else Ok JNull
      | _ => Raise TypeError
      end
  | Undecoded l => Raise (limit_exn l)
  end.

(** ** main *)

Section Main.
Context `{Builtins}.

(** [for prob_data in v], for the values [len] accepts. *)
Definition py_iter (v : json) : list json :=
  match v with
  | JList l => l
  | JDict d => map (fun kv => JStr (fst kv)) d
  | JStr s => map (fun c => JStr (String c EmptyString)) (list_ascii_of_string s)
  | _ => []
  end.

(** Lines 228 to 231: every reference of [problems] is scored and
    appended to [scored_problems]. *)
Fixpoint score_all (h : heap) (problems scored_problems : list nat)
    (max_id : Z) (max_submissions_log_val max_accepted_log_val : R)
    : result (heap * list nat) :=
  match problems with
  | [] => Ok (h, scored_problems)
  | problem :: rest =>
      '(h', r) ← calculate_true_difficulty_score h problem max_id
                   max_submissions_log_val max_accepted_log_val;
      score_all h' rest (scored_problems ++ [r]) max_id
        max_submissions_log_val max_accepted_log_val
  end.

(** The dictionaries a list of references points to. *)
Definition deref (h : heap) (l : list nat) : list problem :=
  omap (M := list) (fun a : nat => h !! a) l.

(** Lines 207 to 234, from a truthy [raw_problems_list] to
    [sorted_problems]; [Ok None] is an early [return].  The objects
    [process_problems] creates are laid out in the heap in the order of
    the list. *)
Definition rank (raw_problems_list : json) : result (option (list problem)) :=
  _ ← py_len raw_problems_list;
  '(processed, max_id, max_subs, max_acs) ←
    process_problems (py_iter raw_problems_list);
  match processed return result (option (list problem)) with
  | [] => Ok None
  | _ =>
      let h : heap := processed in
      let problems := seq 0 (List.length processed) in
      max_submissions_log_val ← max_log max_subs;
      max_accepted_log_val ← max_log max_acs;
      '(h', scored_problems) ←
        score_all h problems [] max_id
          max_submissions_log_val max_accepted_log_val;
      sorted ← sorted_problems h' scored_problems;
      Ok (Some (deref h' sorted))
  end.

Record world : Type := {
  fs : filesystem;
  now : Q;
  response : http_response
}.

(** The calls [main] makes to the cache store and to the network. *)
Inductive event : Set :=
| CacheLoad
| Fetch
| CacheSave.

Record run : Type := {
  final_fs : filesystem;
  events : list event;
  outcome : result (option (list problem))
}.

(** Lines 196 to 234.  The console table and the CSV export that
    follow only read [sorted_problems]. *)
Definition main (w : world) : run :=
  match load_problems_from_cache (fs w) (now w) with
  | Raise e => {| final_fs := fs w; events := [CacheLoad]; outcome := Raise e |}
  | Ok raw_problems_list =>
      if truthy raw_problems_list then
        {| final_fs := fs w; events := [CacheLoad];
           outcome := rank raw_problems_list |}
      else
        match fetch_problems_from_api_rest (response w) with
        | Raise e =>
            {| final_fs := fs w; events := [CacheLoad; Fetch];
               outcome := Raise e |}
        | Ok fetched_data =>
            if truthy fetched_data then
              match save_problems_to_cache (fs w) fetched_data (now w) with
              | (fs', Raise e) =>
                  {| final_fs := fs'; events := [CacheLoad; Fetch; CacheSave];
                     outcome := Raise e |}
              | (fs', Ok _) =>
                  {| final_fs := fs'; events := [CacheLoad; Fetch; CacheSave];
                     outcome := rank fetched_data |}
              end
            else
              {| final_fs := fs w; events := [CacheLoad; Fetch];
                 outcome := Ok None |}
        end
  end.

End Main.

(** ** An instance of the library functions, for concrete runs *)

(** The characters are read as code points 0 to 255.  [int] takes white
    space around an optionally signed run of decimal digits, in which
    single underscores may separate digits. *)
Definition is_space (c : ascii) : bool :=
  let n := N_of_ascii c in
  ((9 <=? n) && (n <=? 13) || (28 <=? n) && (n <=? 32) || (n =? 133) || (n =? 160))%N.

Definition digit_of (c : ascii) : option Z :=
  let n := N_of_ascii c in
  if ((48 <=? n) && (n <=? 57))%N then Some (Z.of_N n - 48) else None.

Fixpoint lstrip (l : list ascii) : list ascii :=
  match l with
  | c :: l' => if is_space c then lstrip l' else l
  | [] => []
  end.

Definition strip (l : list ascii) : list ascii :=
  rev (lstrip (rev (lstrip l))).

Fixpoint digits_value (acc : Z) (after_digit : bool) (l : list ascii) : option Z :=
  match l with
  | [] => if after_digit then Some acc else None
  | c :: l' =>
      match digit_of c with
      | Some d => digits_value (10 * acc + d) true l'
      | None =>
          if Ascii.eqb c "_" && after_digit then digits_value acc false l'
          else None
      end
  end.

Definition decimal_of_string (s : string) : option Z :=
  match strip (list_ascii_of_string s) with
  | "-"%char :: l => option_map Z.opp (digits_value 0 false l)
  | "+"%char :: l => digits_value 0 false l
  | l => digits_value 0 false l
  end.

(** [str] of None, booleans and integers.  The concrete runs below
    render nothing else; floats and containers come out of this
    instance as the empty text.  The theorems hold for every instance. *)
Definition str_of_scalar (v : json) : string :=
  match v with
  | JNull => "None"
  | JBool true => "True"
  | JBool false => "False"
  | JInt n => NilZero.string_of_int (Z.to_int n)
  | _ => ""
  end.

Definition ascii_builtins : Builtins :=
  {| int_of_str := decimal_of_string; str_of_nonstr := str_of_scalar |}.

(** A record in the shape the API sends them, and an item. *)
Definition raw_record (fid : json) (slug_v : json) (acs sub level : Z) : json :=
  JDict [("stat", JDict [("frontend_question_id", fid);
                         ("question__title", JStr "Two Sum");
                         ("question__title_slug", slug_v);
                         ("total_acs", JInt acs);
                         ("total_submitted", JInt sub)]);
         ("difficulty", JDict [("level", JInt level)]);
         ("paid_only", JBool false)].

Definition sample_problem (i : Z) : problem :=
  {| id := i; title := JStr "Two Sum"; slug := JStr "two-sum";
     difficulty := "Hard"; totalAccepted := 500; totalSubmissions := 5000;
     acceptanceRate := 1 # 10; url := "https://leetcode.com/problems/two-sum/";
     trueDifficultyScore := None |}.

Definition two_sum_item (acs sub : Z) (rate : Q) : problem :=
  {| id := 1; title := JStr "Two Sum"; slug := JStr "two-sum";
     difficulty := "Easy"; totalAccepted := acs; totalSubmissions := sub;
     acceptanceRate := rate; url := "https://leetcode.com/problems/two-sum/";
     trueDifficultyScore := None |}.

(** A cache file written a minute or more ago, and the worlds [main]
    runs in: the API answers in each, the cache is fresh but cannot be
    opened in one and is not there in the other. *)
Definition old_cache : filesystem :=
  {| entry := Some {| body := Document (JList [JInt 1]); mtime := 0;
                      readable := true |};
     can_open_w := true |}.

Definition api_answer : http_response :=
  Payload (JDict [("stat_status_pairs",
                   JList [raw_record (JInt 1) (JStr "two-sum") 1 2 1])]).

Definition unreadable_cache_file : cache_file :=
  {| body := Document (JList [raw_record (JInt 1) (JStr "two-sum") 1 2 1]);
     mtime := 0; readable := false |}.

Definition unreadable_cache_world : world :=
  {| fs := {| entry := Some unreadable_cache_file; can_open_w := true |};
     now := 60;
     response := api_answer |}.

Definition no_cache_world : world :=
  {| fs := {| entry := None; can_open_w := true |};
     now := 60;
     response := api_answer |}.

(** Three scored items, the first and the last with the same score. *)
Definition scored_heap : heap :=
  [set_trueDifficultyScore (sample_problem 1) 2;
   set_trueDifficultyScore (sample_problem 2) 3;
   set_trueDifficultyScore (sample_problem 3) 2].

(** ** Notions the further properties are stated with *)

(** The dictionary line 130 builds from the converted fields. *)
Definition item_of_record `{Builtins} (st d : list (string * json))
    (fid acc sub : Z) (dstr : string) (rate : Q) : problem :=
  {| id := fid;
     title := field st "question__title" (JStr "N/A");
     slug := field st "question__title_slug" (JStr "N/A");
     difficulty := dstr;
     totalAccepted := acc;
     totalSubmissions := sub;
     acceptanceRate := rate;
     url := ("https://leetcode.com/problems/"
             ++ py_str (field st "question__title_slug" (JStr "N/A")) ++ "/")%string;
     trueDifficultyScore := None |}.

(** What holds of every item by construction, besides its rate. *)
Definition item_wellformed `{Builtins} (p : problem) : Prop :=
  id p <> 0 /\
  slug p <> JStr "N/A" /\
  In (difficulty p) ["Easy"; "Medium"; "Hard"] /\
  url p = ("https://leetcode.com/problems/" ++ py_str (slug p) ++ "/")%string /\
  trueDifficultyScore p = None.

(** A record the lines 112 and 113 skip: no (or a falsy) 'stat' or
    'difficulty', or a truthy 'paid_only'. *)
Definition filtered_early (pd : list (string * json)) : Prop :=
  truthy (field pd "stat" JNull) = false \/
  truthy (field pd "difficulty" JNull) = false \/
  truthy (field pd "paid_only" (JBool false)) = true.

(** A record on which no exception escapes the loop: it is a
    dictionary, its 'stat' and 'difficulty' are falsy or dictionaries,
    none of the four numeric fields is an infinite float, and
    'total_acs' converts to less than 2^1023 in absolute value, so that
    the division cannot overflow. *)
Definition finite_field (d : list (string * json)) (k : string) : Prop :=
  forall neg, dict_get d k <> Some (JFloat (FInf neg)).

Definition block_ok (v : json) : Prop :=
  truthy v = false \/ exists d, v = JDict d.

Definition record_shaped `{Builtins} (r : json) : Prop :=
  exists pd, r = JDict pd /\
    block_ok (field pd "stat" JNull) /\
    block_ok (field pd "difficulty" JNull) /\
    (forall st, field pd "stat" JNull = JDict st ->
       finite_field st "frontend_question_id" /\
       finite_field st "total_acs" /\
       finite_field st "total_submitted" /\
       forall n, py_int (field st "total_acs" (JInt 0)) = Ok n ->
                 Z.abs n < 2 ^ 1023) /\
    (forall d, field pd "difficulty" JNull = JDict d -> finite_field d "level").

(** Two items that agree on the eight fields [process_problems] sets,
    and the score an item carries (0 when it has none). *)
Definition same_item (p p' : problem) : Prop :=
  id p' = id p /\ title p' = title p /\ slug p' = slug p /\
  difficulty p' = difficulty p /\ totalAccepted p' = totalAccepted p /\
  totalSubmissions p' = totalSubmissions p /\
  acceptanceRate p' = acceptanceRate p /\ url p' = url p.

Definition item_score (p : problem) : R :=
  from_option (fun s => s) 0%R (trueDifficultyScore p).

(** An item with the score the given statistics give it. *)
Definition scored_with (max_id : Z) (max_submissions_log max_accepted_log : R)
    (p : problem) : problem :=
  set_trueDifficultyScore p
    (true_difficulty_score p max_id max_submissions_log max_accepted_log).

(** An item on which no conversion overflows, whatever the statistics:
    its counts and its id are below [2^1024 - 2^970] in absolute value. *)
Definition item_in_range (p : problem) : Prop :=
  too_large (totalAccepted p) = false /\
  too_large (totalSubmissions p) = false /\
  too_large (id p) = false.

(** Rational bounds on the exponential, to place a logarithm: a
    rational rounded down and up to a multiple of [1 / 10^30], repeated
    squaring with that rounding, and the bounds [1 + v <= exp v] and
    [exp v <= 1 / (1 - v)] squared [m] times, which enclose
    [exp (v * 2^m)]. *)
Definition grid : positive := (10 ^ 30)%positive.

Definition Qdown (q : Q) : Q :=
  ((Qnum q * Zpos grid) / Zpos (Qden q)) # grid.

Definition Qup (q : Q) : Q :=
  (- ((- (Qnum q * Zpos grid)) / Zpos (Qden q))) # grid.

Fixpoint square_down (m : nat) (q : Q) : Q :=
  match m with
  | O => q
  | S m' => square_down m' (Qdown (q * q))
  end.

Fixpoint square_up (m : nat) (q : Q) : Q :=
  match m with
  | O => q
  | S m' => square_up m' (Qup (q * q))
  end.

Definition exp_below (v : Q) (m : nat) : Q := square_down m (1 + v).

Definition exp_above (v : Q) (m : nat) : Q := square_up m (/ (1 - v)).

(** Further inputs for concrete runs: a paid record, and a cache file
    written at time 0 that holds the answer of the API. *)
Definition paid_record : list (string * json) :=
  [("stat", JDict [("frontend_question_id", JInt 2)]);
   ("difficulty", JDict [("level", JInt 1)]);
   ("paid_only", JBool true)].

Definition answer_records : json :=
  JList [raw_record (JInt 1) (JStr "two-sum") 1 2 1].

Definition fresh_cache_file : cache_file :=
  {| body := Document answer_records; mtime := 0; readable := true |}.

Definition fresh_cache_world : world :=
  {| fs := {| entry := Some fresh_cache_file; can_open_w := true |};
     now := 60;
     response := RequestFailed |}.

Definition offline_world : world :=
  {| fs := {| entry := None; can_open_w := true |};
     now := 60;
     response := RequestFailed |}.

(** * Properties *)

(** ** Outcomes *)

Lemma bind_ok {A B} (m : result A) (f : A -> result B) (b : B) :
  m ≫= f = Ok b -> exists a, m = Ok a /\ f a = Ok b.
Proof. destruct m; simpl; [eauto | discriminate]. Qed.

(** [m ≫= f = Ok b] in [E] is split into the value of [m] and the rest. *)
Ltac bind_inv E x Hx :=
  let E' := fresh in
  apply bind_ok in E as (x & Hx & E'); rename E' into E.

(** The same when [m] is a [py_get] on a dictionary, whose value is known. *)
Ltac get_inv E :=
  let v := fresh "v" in
  let Hv := fresh "Hv" in
  bind_inv E v Hv; simpl in Hv; injection Hv as <-.

(** ** The normalizer *)

Section Normalizer.
Context `{Builtins}.

(** What a kept record looked like. *)
Lemma try_body_keep stat di p :
  try_body stat di = Ok (Some p) ->
  exists st d fid acc sub lvl dstr rate,
    stat = JDict st /\ di = JDict d /\
    py_int (field st "frontend_question_id" (JInt 0)) = Ok fid /\
    py_int (field st "total_acs" (JInt 0)) = Ok acc /\
    py_int (field st "total_submitted" (JInt 0)) = Ok sub /\
    py_int (field d "level" (JInt 0)) = Ok lvl /\
    eq_str (field st "question__title_slug" (JStr "N/A")) "N/A" = false /\
    fid <> 0 /\
    int_dict_get DIFFICULTY_API_MAP lvl = Some dstr /\
    (if 0 <? sub then py_truediv acc sub else Ok 0%Q) = Ok rate /\
    id p = fid /\ totalAccepted p = acc /\ totalSubmissions p = sub /\
    acceptanceRate p = rate /\ difficulty p = dstr /\
    slug p = field st "question__title_slug" (JStr "N/A").
Proof.
  unfold try_body. intros E.
  destruct stat as [| | | | |?|st]; try discriminate.
  get_inv E. bind_inv E fid Efid. get_inv E. get_inv E.
  get_inv E. bind_inv E acc Eacc. get_inv E. bind_inv E sub Esub.
  destruct di as [| | | | |?|d]; try discriminate.
  get_inv E. bind_inv E lvl Elvl.
  destruct (eq_str _ _) eqn:Eslug; [discriminate|].
  destruct (fid =? 0) eqn:Ez; [discriminate|].
  destruct (lvl =? 0); [discriminate|]. cbn [orb] in E.
  bind_inv E rate Erate. cbv zeta in E.
  destruct (int_dict_get DIFFICULTY_API_MAP lvl) as [dstr|] eqn:Ed;
    cbn [from_option] in E; [|discriminate].
  destruct (String.eqb dstr "Unknown"); [discriminate|].
  injection E as <-.
  exists st, d, fid, acc, sub, lvl, dstr, rate. simpl.
  apply Z.eqb_neq in Ez. repeat split; auto.
Qed.

Lemma process_record_keep r p :
  process_record r = Ok (Some p) ->
  exists pd, r = JDict pd /\
    truthy (field pd "paid_only" (JBool false)) = false /\
    try_body (field pd "stat" JNull) (field pd "difficulty" JNull) = Ok (Some p).
Proof.
  unfold process_record. intros E.
  destruct r as [| | | | |?|pd]; try discriminate. simpl in E.
  exists pd. split; [reflexivity|].
  destruct (negb (truthy (field pd "stat" JNull))
            || negb (truthy (field pd "difficulty" JNull))); [discriminate|].
  destruct (truthy (field pd "paid_only" (JBool false))); [discriminate|].
  split; [reflexivity|].
  destruct (try_body _ _) as [o|[]]; try discriminate; assumption.
Qed.

Lemma field_block pd block b :
  field pd block JNull = JDict b -> dict_get pd block = Some (JDict b).
Proof.
  unfold field. destruct (dict_get pd block); simpl; [congruence | discriminate].
Qed.

Lemma field_raw pd block b k default :
  field pd block JNull = JDict b ->
  field b k default =
    from_option (fun x => x) default (raw_field (JDict pd) block k).
Proof.
  intros E. apply field_block in E. unfold raw_field. rewrite E. reflexivity.
Qed.

Lemma rejected_not_kept r p :
  identifier_missing_or_zero r \/ slug_missing r \/ tier_unknown r ->
  process_record r = Ok (Some p) -> False.
Proof.
  intros Hbad E.
  apply process_record_keep in E as (pd & -> & _ & E).
  apply try_body_keep in E
    as (st & d & fid & acc & sub & lvl & dstr & rate & Est & Ed & Efid & _ & _ &
        Elvl & Eslug & Hfid & Hmap & _).
  rewrite (field_raw _ _ _ _ _ Est) in Efid.
  rewrite (field_raw _ _ _ _ _ Est) in Eslug.
  rewrite (field_raw _ _ _ _ _ Ed) in Elvl.
  destruct Hbad as [Hb | [Hb | Hb]].
  - unfold identifier_missing_or_zero in Hb.
    destruct (raw_field _ "stat" "frontend_question_id"); simpl in Efid; congruence.
  - unfold slug_missing in Hb.
    destruct (raw_field _ "stat" "question__title_slug") as [j|]; simpl in Eslug;
      [subst j|]; discriminate.
  - unfold tier_unknown in Hb.
    destruct (raw_field _ "difficulty" "level"); simpl in Elvl.
    + rewrite (Hb _ Elvl) in Hmap. discriminate.
    + injection Elvl as <-. discriminate.
Qed.

(** The loop over a concatenation is the loop over the first part
    continued over the second. *)
Lemma process_loop_app l1 l2 acc m1 m2 m3 :
  process_loop (l1 ++ l2) acc m1 m2 m3 =
  process_loop l1 acc m1 m2 m3 ≫= fun '(acc', m1', m2', m3') =>
    process_loop l2 acc' m1' m2' m3'.
Proof.
  revert acc m1 m2 m3. induction l1 as [|r l1 IH]; intros; simpl; [reflexivity|].
  destruct (process_record r) as [[p|]|e]; simpl; auto.
Qed.

(** Every item the loop adds comes from a record of the input. *)
Lemma process_loop_inv l : forall acc m1 m2 m3 items a b c,
  process_loop l acc m1 m2 m3 = Ok (items, a, b, c) ->
  exists kept,
    items = acc ++ kept /\
    Forall (fun p => exists r, In r l /\ process_record r = Ok (Some p)) kept.
Proof.
  induction l as [|r l IH]; intros acc m1 m2 m3 items a b c E; simpl in E.
  - injection E as <- _ _ _. exists []. rewrite app_nil_r. split; auto.
  - destruct (process_record r) as [[p|]|e] eqn:Er; simpl in E; [| |discriminate].
    + apply IH in E as (kept & -> & Hk).
      exists (p :: kept). rewrite <- app_assoc. split; [reflexivity|].
      constructor.
      * exists r. split; [left; reflexivity | assumption].
      * eapply Forall_impl; [exact Hk|]. intros q (r' & Hin & Hr').
        exists r'. split; [right; assumption | assumption].
    + apply IH in E as (kept & -> & Hk).
      exists kept. split; [reflexivity|].
      eapply Forall_impl; [exact Hk|]. intros q (r' & Hin & Hr').
      exists r'. split; [right; assumption | assumption].
Qed.

Lemma process_loop_all_skipped l : forall acc m1 m2 m3,
  Forall (fun r => process_record r = Ok None) l ->
  process_loop l acc m1 m2 m3 = Ok (acc, m1, m2, m3).
Proof.
  induction l as [|r l IH]; intros acc m1 m2 m3 Hall; simpl; [reflexivity|].
  inversion Hall as [|? ? Hr Hl]; subst. rewrite Hr. simpl. apply IH, Hl.
Qed.

Lemma process_loop_returns l :
  Forall (fun r => exists o, process_record r = Ok o) l ->
  forall acc m1 m2 m3,
    exists items a b c, process_loop l acc m1 m2 m3 = Ok (items, a, b, c).
Proof.
  induction 1 as [|r l [o Hr] _ IH]; intros acc m1 m2 m3; simpl; [eauto 6|].
  rewrite Hr. simpl. destruct o as [p|]; apply IH.
Qed.

Lemma process_problems_loop raw items a b c :
  raw <> [] ->
  process_problems raw = Ok (items, a, b, c) ->
  exists m1 m2 m3,
    process_loop raw [] 0 0 0 = Ok (items, m1, m2, m3) /\
    a = Z.max 1 m1 /\ b = Z.max 1 m2 /\ c = Z.max 1 m3.
Proof.
  intros Hne E. destruct raw as [|r raw]; [congruence|].
  unfold process_problems in E.
  apply bind_ok in E as ([[[items' m1] m2] m3] & El & E).
  injection E as <- <- <- <-. eauto 10.
Qed.

(** C1, as amended.  The empty input returns the empty item sequence
    with the maxima 0, 0, 0.  On a non-empty input [process_problems]
    returns unless a record raises an exception the loop does not
    catch; every maximum it returns is at least 1, and when every
    record is filtered out it returns the empty item sequence with the
    maxima 1, 1, 1. *)
Theorem process_problems_maxima (raw : list json) :
  (raw = [] -> process_problems raw = Ok ([], 0, 0, 0)) /\
  (raw <> [] ->
   (Forall (fun r => exists o, process_record r = Ok o) raw ->
    exists items a b c, process_problems raw = Ok (items, a, b, c)) /\
   (forall items a b c,
      process_problems raw = Ok (items, a, b, c) ->
      1 <= a /\ 1 <= b /\ 1 <= c) /\
   (Forall (fun r => process_record r = Ok None) raw ->
    process_problems raw = Ok ([], 1, 1, 1))).
Proof.
  split; [intros ->; reflexivity|].
  intros Hne. split; [|split].
  - intros Hall. destruct raw as [|r raw]; [congruence|].
    destruct (process_loop_returns _ Hall [] 0 0 0) as (items & a & b & c & E).
    unfold process_problems. rewrite E. simpl. eauto 6.
  - intros items a b c E.
    apply process_problems_loop in E as (m1 & m2 & m3 & _ & -> & -> & ->);
      [lia | assumption].
  - intros Hall. destruct raw as [|r raw]; [congruence|].
    unfold process_problems. rewrite (process_loop_all_skipped _ _ _ _ _ Hall).
    reflexivity.
Qed.

Lemma py_truediv_ok a b q : py_truediv a b = Ok q -> q = Qmake a (Z.to_pos b).
Proof.
  unfold py_truediv. destruct (Qle_bool _ _); [discriminate|]. congruence.
Qed.

Lemma process_record_rate r p : process_record r = Ok (Some p) -> rate_ok p.
Proof.
  intros E. apply process_record_keep in E as (pd & -> & _ & E).
  apply try_body_keep in E
    as (st & d & fid & acc & sub & lvl & dstr & rate &
        _ & _ & _ & _ & _ & _ & _ & _ & _ & Erate & _ & Hacc & Hsub & Hrate & _).
  unfold rate_ok. rewrite Hacc, Hsub, Hrate. clear Hacc Hsub Hrate.
  destruct (0 <? sub) eqn:Epos.
  - apply Z.ltb_lt in Epos. apply py_truediv_ok in Erate. subst rate.
    split; [|split].
    + intros _. rewrite <- (Z2Pos.id sub) at 2 by assumption. apply Qmake_Qdiv.
    + lia.
    + intros [Ha Hb]. unfold Qle. simpl. rewrite Z2Pos.id by assumption. lia.
  - apply Z.ltb_ge in Epos. injection Erate as <-.
    split; [lia|]. split; [reflexivity|]. intros _. split; discriminate.
Qed.

(** C2, as amended.  For every item [process_problems] returns,
    acceptanceRate equals totalAccepted / totalSubmissions when
    totalSubmissions is positive and is 0 otherwise; it lies in [0, 1]
    when 0 <= totalAccepted <= totalSubmissions, which the function
    does not check of its input. *)
Theorem acceptance_rate_of_items raw items a b c :
  process_problems raw = Ok (items, a, b, c) -> Forall rate_ok items.
Proof.
  intros E. destruct raw as [|r0 raw].
  - injection E as <- _ _ _. constructor.
  - apply process_problems_loop in E as (m1 & m2 & m3 & E & _); [|discriminate].
    apply process_loop_inv in E as (kept & -> & Hk). simpl.
    eapply Forall_impl; [exact Hk|]. intros p (r & _ & Hr).
    eapply process_record_rate, Hr.
Qed.

(** C6, as amended.  A raw record whose identifier is missing or
    converts to zero, whose slug is missing (the key is absent, or the
    value is the placeholder 'N/A' the code puts for an absent key), or
    whose level is missing or does not convert to 1, 2 or 3, is skipped:
    wherever it stands in the input, the items [process_problems]
    returns are those it returns without that record. *)
Theorem rejected_records_absent (l1 l2 : list json) (r : json) items a b c :
  identifier_missing_or_zero r \/ slug_missing r \/ tier_unknown r ->
  process_problems (l1 ++ r :: l2) = Ok (items, a, b, c) ->
  process_record r = Ok None /\
  exists a' b' c', process_problems (l1 ++ l2) = Ok (items, a', b', c').
Proof.
  intros Hbad E.
  apply process_problems_loop in E as (m1 & m2 & m3 & E & _);
    [|destruct l1; discriminate].
  rewrite process_loop_app in E.
  apply bind_ok in E as ([[[acc n1] n2] n3] & E1 & E). simpl in E.
  destruct (process_record r) as [[p|]|e] eqn:Er; simpl in E; [| |discriminate].
  { exfalso. eapply rejected_not_kept; eauto. }
  split; [reflexivity|].
  destruct (l1 ++ l2) as [|x l] eqn:El.
  - apply app_eq_nil in El as [-> ->]. simpl in E1, E.
    injection E1 as <- <- <- <-. injection E as <- _ _ _.
    exists 0, 0, 0. reflexivity.
  - exists (Z.max 1 m1), (Z.max 1 m2), (Z.max 1 m3).
    unfold process_problems. rewrite <- El, process_loop_app, E1. simpl.
    rewrite E. reflexivity.
Qed.

End Normalizer.

(** A paid record alone is filtered out, and leaves the maxima at 1. *)
Lemma process_problems_maxima_witness :
  process_problems (H := ascii_builtins)
    [JDict [("stat", JDict [("frontend_question_id", JInt 1)]);
            ("difficulty", JDict [("level", JInt 1)]);
            ("paid_only", JBool true)]] = Ok ([], 1, 1, 1).
Proof.
  apply (proj2 (process_problems_maxima (H := ascii_builtins) _)).
  - discriminate.
  - repeat constructor.
Defined.

(** C1 as stated fails on the empty input: the maxima returned are 0. *)
Lemma process_problems_empty_maxima :
  exists items a b c,
    process_problems (H := ascii_builtins) [] = Ok (items, a, b, c) /\
    a < 1 /\ b < 1 /\ c < 1.
Proof. exists [], 0, 0, 0. repeat split. Qed.

Lemma acceptance_rate_of_items_witness :
  Forall rate_ok [two_sum_item 1 2 (1 # 2)].
Proof.
  apply (acceptance_rate_of_items (H := ascii_builtins)
           [raw_record (JInt 1) (JStr "two-sum") 1 2 1] _ 1 2 1).
  reflexivity.
Defined.

(** C2 as stated fails on a record with more accepted than submitted:
    the item is kept with the rate 5/2. *)
Lemma acceptance_rate_above_one :
  process_problems (H := ascii_builtins)
    [raw_record (JInt 1) (JStr "two-sum") 5 2 1] =
    Ok ([two_sum_item 5 2 (5 # 2)], 1, 2, 5) /\
  (1 < acceptanceRate (two_sum_item 5 2 (5 # 2)))%Q.
Proof. split; reflexivity. Qed.

Lemma rejected_records_absent_witness :
  process_record (H := ascii_builtins)
    (raw_record (JInt 0) (JStr "zero") 1 2 1) = Ok None /\
  exists a' b' c',
    process_problems (H := ascii_builtins)
      ([] ++ [raw_record (JInt 1) (JStr "two-sum") 1 2 1]) =
    Ok ([two_sum_item 1 2 (1 # 2)], a', b', c').
Proof.
  apply (rejected_records_absent (H := ascii_builtins) []
           [raw_record (JInt 1) (JStr "two-sum") 1 2 1]
           (raw_record (JInt 0) (JStr "zero") 1 2 1)
           [two_sum_item 1 2 (1 # 2)] 1 2 1).
  - left. reflexivity.
  - reflexivity.
Defined.

(** C6 as stated fails on a record whose slug is the empty string: it
    is kept. *)
Lemma empty_slug_kept :
  slug_empty (raw_record (JInt 1) (JStr "") 1 2 1) /\
  exists p,
    process_problems (H := ascii_builtins)
      [raw_record (JInt 1) (JStr "") 1 2 1] = Ok ([p], 1, 2, 1) /\
    slug p = JStr "".
Proof. split; [reflexivity|]. eexists. split; reflexivity. Qed.

(** ** Comparisons and rounding on the reals *)

Local Open Scope R_scope.

Lemma Rltb_true x y : x < y -> Rltb x y = true.
Proof.
  intros Hlt. unfold Rltb. destruct (Rlt_dec x y); [reflexivity | contradiction].
Qed.

Lemma Rltb_false x y : y <= x -> Rltb x y = false.
Proof. intros Hle. unfold Rltb. destruct (Rlt_dec x y); [lra | reflexivity]. Qed.


Lemma Int_part_bounds y : IZR (Int_part y) <= y < IZR (Int_part y) + 1.
Proof. destruct (base_Int_part y). lra. Qed.

Lemma Int_part_mono x y : x <= y -> (Int_part x <= Int_part y)%Z.
Proof.
  intros Hle. pose proof (Int_part_bounds x). pose proof (Int_part_bounds y).
  apply Z.lt_succ_r. apply lt_IZR. rewrite succ_IZR. lra.
Qed.

Lemma round_half_even_range y :
  (Int_part y <= round_half_even y <= Int_part y + 1)%Z.
Proof.
  unfold round_half_even.
  destruct (Rltb _ _); [lia|]. destruct (Rltb _ _); [lia|].
  destruct (Z.even _); lia.
Qed.

(** Rounding keeps the order: within one unit interval by the three
    cases of the definition, across intervals by the range. *)
Lemma round_half_even_mono x y :
  x <= y -> (round_half_even x <= round_half_even y)%Z.
Proof.
  intros Hle. pose proof (Int_part_mono x y Hle) as Hf.
  destruct (Z.eq_dec (Int_part x) (Int_part y)) as [Heq|Hne].
  - unfold round_half_even, Rltb. rewrite <- Heq.
    destruct (Rlt_dec (x - IZR (Int_part x)) (1 / 2)),
             (Rlt_dec (1 / 2) (x - IZR (Int_part x))),
             (Rlt_dec (y - IZR (Int_part x)) (1 / 2)),
             (Rlt_dec (1 / 2) (y - IZR (Int_part x))),
             (Z.even (Int_part x)); try lia; lra.
  - pose proof (round_half_even_range x). pose proof (round_half_even_range y).
    lia.
Qed.

Lemma round2_mono x y : x <= y -> round2 x <= round2 y.
Proof.
  intros Hle. unfold round2.
  apply Rmult_le_compat_r; [lra|]. apply IZR_le, round_half_even_mono. lra.
Qed.

(** ** The score *)

Lemma weight_acceptance : weight "acceptance_rate_impact" = 300%Z.
Proof. reflexivity. Qed.
Lemma weight_low_accepted : weight "low_total_accepted_penalty" = 150%Z.
Proof. reflexivity. Qed.
Lemma weight_popularity : weight "high_popularity_discount" = (-80)%Z.
Proof. reflexivity. Qed.
Lemma weight_newness : weight "newness_premium" = 70%Z.
Proof. reflexivity. Qed.

Create Rewrite HintDb weights.
#[local] Hint Rewrite weight_acceptance weight_low_accepted weight_popularity
  weight_newness : weights.

Section ScoreSteps.
Variable p : problem.




End ScoreSteps.

Lemma log1p_pos n : (0 < n)%Z -> 0 < log1p (IZR n).
Proof.
  intros Hn. unfold log1p. rewrite <- ln_1. apply ln_increasing; [lra|].
  apply IZR_lt in Hn. lra.
Qed.

Lemma log1p_mono n n' :
  (0 <= n)%Z -> (n <= n')%Z -> log1p (IZR n) <= log1p (IZR n').
Proof.
  intros Hn Hle. unfold log1p.
  destruct (Z.eq_dec n n') as [->|Hne]; [lra|].
  left. apply ln_increasing.
  - apply IZR_le in Hn. lra.
  - assert (n < n')%Z as Hlt by lia. apply IZR_lt in Hlt. lra.
Qed.



(** ** The conversions that can overflow *)

Lemma py_log1p_value n :
  (0 <= n)%Z ->
  py_log1p n =
  if too_large n then Raise OverflowError else Ok (log1p (IZR n)).
Proof.
  intros Hn. unfold py_log1p. destruct (too_large n); [reflexivity|].
  assert ((n <=? -1)%Z = false) as -> by (apply Z.leb_gt; lia). reflexivity.
Qed.

Lemma Q2R_quotient a b : (0 < b)%Z -> Q2R (a # Z.to_pos b) = IZR a / IZR b.
Proof.
  intros Hb. unfold Q2R. cbn [Qnum Qden]. rewrite Z2Pos.id by assumption.
  reflexivity.
Qed.

Section CheckedSteps.
Variable p : problem.

(** Each of the three steps that can raise either raises
    [OverflowError] or leaves the value of the step. *)
Lemma low_accepted_step_value mal s :
  low_accepted_step p mal s =
  if (0 <=? totalAccepted p)%Z && Rltb 0 mal && too_large (totalAccepted p)
  then Raise OverflowError else Ok (add_low_accepted p mal s).
Proof.
  unfold low_accepted_step, add_low_accepted.
  destruct (0 <=? totalAccepted p)%Z eqn:E; cbn [andb]; [|reflexivity].
  destruct (Rltb 0 mal); cbn [andb]; [|reflexivity].
  rewrite py_log1p_value by (apply Z.leb_le, E).
  destruct (too_large _); reflexivity.
Qed.

Lemma popularity_step_value msl s :
  popularity_step p msl s =
  if (0 <? totalSubmissions p)%Z && Rltb 0 msl && too_large (totalSubmissions p)
  then Raise OverflowError else Ok (add_popularity p msl s).
Proof.
  unfold popularity_step, add_popularity.
  destruct (0 <? totalSubmissions p)%Z eqn:E; cbn [andb]; [|reflexivity].
  destruct (Rltb 0 msl); cbn [andb]; [|reflexivity].
  apply Z.ltb_lt in E. rewrite py_log1p_value by lia.
  destruct (too_large _); reflexivity.
Qed.

Lemma newness_step_value mid s :
  newness_step p mid s =
  if (0 <? mid)%Z && Qle_bool float_overflow (Qabs (id p # Z.to_pos mid))
  then Raise OverflowError else Ok (add_newness p mid s).
Proof.
  unfold newness_step, add_newness, py_truediv.
  destruct (0 <? mid)%Z eqn:E; cbn [andb]; [|reflexivity].
  cbv zeta. destruct (Qle_bool _ _); [reflexivity|].
  cbn [mbind result_bind]. rewrite Q2R_quotient by (apply Z.ltb_lt, E).
  reflexivity.
Qed.

(** Lines 155 to 188: [OverflowError] on the inputs singled out by
    [score_overflows], the rounded sum of the five steps on all
    others. *)
Lemma rounded_score_value mid msl mal :
  rounded_score p mid msl mal =
  if score_overflows p mid msl mal then Raise OverflowError
  else Ok (true_difficulty_score p mid msl mal).
Proof.
  unfold rounded_score, score_overflows, true_difficulty_score, raw_score.
  cbv zeta. rewrite low_accepted_step_value.
  destruct (_ && too_large (totalAccepted p)); [reflexivity|].
  cbn [mbind result_bind orb]. rewrite popularity_step_value.
  destruct (_ && too_large (totalSubmissions p)); [reflexivity|].
  cbn [mbind result_bind orb]. rewrite newness_step_value.
  destruct (_ && Qle_bool _ _); reflexivity.
Qed.

End CheckedSteps.

Lemma calculate_value (h : list problem) (a : nat) (p : problem) mid msl mal :
  h !! a = Some p ->
  calculate_true_difficulty_score h a mid msl mal =
  if score_overflows p mid msl mal then Raise OverflowError
  else Ok (<[a := set_trueDifficultyScore p
                    (true_difficulty_score p mid msl mal)]> h, a).
Proof.
  intros Hp. unfold calculate_true_difficulty_score, heap. rewrite Hp.
  rewrite rounded_score_value. destruct (score_overflows _ _ _ _); reflexivity.
Qed.

Lemma too_large_spec n :
  too_large n = false <-> (Z.abs n < 2 ^ 1024 - 2 ^ 970)%Z.
Proof.
  unfold too_large. split.
  - intros E. apply Z.nle_gt. intros Hle.
    assert (Qle_bool float_overflow (Qabs (inject_Z n)) = true) as E'.
    { apply Qle_bool_iff. unfold float_overflow, Qle, Qabs, inject_Z.
      cbn [Qnum Qden]. lia. }
    congruence.
  - intros Hlt. destruct (Qle_bool _ _) eqn:E; [|reflexivity].
    apply Qle_bool_iff in E. unfold float_overflow, Qle, Qabs, inject_Z in E.
    cbn [Qnum Qden] in E. lia.
Qed.

(** An item whose counts and id are in the range of a float is scored,
    whatever the statistics: the quotient by a positive maximum is no
    larger than the id. *)
Lemma in_range_no_overflow p mid msl mal :
  item_in_range p -> score_overflows p mid msl mal = false.
Proof.
  intros (Ha & Hs & Hi). unfold score_overflows. rewrite Ha, Hs.
  rewrite !andb_false_r. cbn [orb].
  destruct (0 <? mid)%Z eqn:Em; [|reflexivity]. cbn [andb].
  apply Z.ltb_lt in Em. apply too_large_spec in Hi.
  destruct (Qle_bool _ _) eqn:E; [|reflexivity]. exfalso.
  apply Qle_bool_iff in E. unfold float_overflow, Qle, Qabs, inject_Z in E.
  cbn [Qnum Qden] in E. rewrite Z2Pos.id in E by assumption.
  set (B := (2 ^ 1024 - 2 ^ 970)%Z) in *.
  assert (0 < B)%Z by (subst B; reflexivity). nia.
Qed.

(** ** Placing a logarithm between two rationals *)

Lemma Qdown_le q : (Qdown q <= q)%Q.
Proof.
  unfold Qdown, Qle. cbn [Qnum Qden].
  pose proof (Z.mul_div_le (Qnum q * Zpos grid) (Zpos (Qden q)) ltac:(lia)).
  lia.
Qed.

Lemma Qdown_nonneg q : (0 <= q)%Q -> (0 <= Qdown q)%Q.
Proof.
  unfold Qdown, Qle. cbn [Qnum Qden]. intros Hq.
  assert (0 <= Qnum q * Zpos grid / Zpos (Qden q))%Z.
  { apply Z.div_pos; lia. }
  lia.
Qed.

Lemma Qup_ge q : (q <= Qup q)%Q.
Proof.
  unfold Qup, Qle. cbn [Qnum Qden].
  pose proof (Z.mul_div_le (- (Qnum q * Zpos grid)) (Zpos (Qden q)) ltac:(lia)).
  lia.
Qed.

Lemma exp_double v : exp (v * 2) = exp v * exp v.
Proof. rewrite <- exp_plus. f_equal. lra. Qed.

Lemma square_down_le m : forall q v,
  (0 <= q)%Q -> Q2R q <= exp v -> Q2R (square_down m q) <= exp (v * 2 ^ m).
Proof.
  induction m as [|m IH]; intros q v Hq Hle.
  - simpl. rewrite Rmult_1_r. exact Hle.
  - cbn [square_down].
    replace (v * 2 ^ S m) with (v * 2 * 2 ^ m) by (simpl; ring).
    apply IH.
    + apply Qdown_nonneg. apply Qmult_le_0_compat; assumption.
    + rewrite exp_double.
      apply Rle_trans with (Q2R (q * q)); [apply Qle_Rle, Qdown_le|].
      rewrite Q2R_mult. apply Qle_Rle in Hq. rewrite RMicromega.Q2R_0 in Hq.
      apply Rmult_le_compat; assumption.
Qed.

Lemma square_up_ge m : forall q v,
  exp v <= Q2R q -> exp (v * 2 ^ m) <= Q2R (square_up m q).
Proof.
  induction m as [|m IH]; intros q v Hle.
  - simpl. rewrite Rmult_1_r. exact Hle.
  - cbn [square_up].
    replace (v * 2 ^ S m) with (v * 2 * 2 ^ m) by (simpl; ring).
    apply IH. rewrite exp_double.
    apply Rle_trans with (Q2R (q * q)); [|apply Qle_Rle, Qup_ge].
    rewrite Q2R_mult. pose proof (exp_pos v).
    apply Rmult_le_compat; lra.
Qed.

Lemma exp_ge_1_plus v : 1 + v <= exp v.
Proof.
  destruct (Req_dec v 0) as [->|Hv].
  - rewrite exp_0. lra.
  - left. apply exp_ineq1. assumption.
Qed.

Lemma exp_below_le v m :
  (0 <= v)%Q -> Q2R (exp_below v m) <= exp (Q2R v * 2 ^ m).
Proof.
  intros Hv. apply square_down_le.
  - apply (Qplus_le_compat 0 1 0 v); [discriminate | assumption].
  - rewrite Q2R_plus, RMicromega.Q2R_1. apply exp_ge_1_plus.
Qed.

Lemma exp_above_ge v m :
  (v < 1)%Q -> exp (Q2R v * 2 ^ m) <= Q2R (exp_above v m).
Proof.
  intros Hv. apply square_up_ge.
  assert (0 < 1 - Q2R v) as Hpos.
  { apply Qlt_Rlt in Hv. rewrite RMicromega.Q2R_1 in Hv. lra. }
  rewrite Q2R_inv.
  2: { intros E. apply Qeq_eqR in E.
       rewrite Q2R_minus, RMicromega.Q2R_1, RMicromega.Q2R_0 in E. lra. }
  rewrite Q2R_minus, RMicromega.Q2R_1.
  pose proof (exp_ge_1_plus (- Q2R v)) as Hn.
  rewrite exp_Ropp in Hn.
  pose proof (exp_pos (Q2R v)) as He.
  apply (Rmult_le_reg_r (1 - Q2R v)); [assumption|].
  rewrite Rinv_l by lra.
  apply (Rmult_le_compat_l (exp (Q2R v))) in Hn; [|lra].
  rewrite Rinv_r in Hn by lra. lra.
Qed.

Lemma ln_le_bound (y : Z) (v : Q) (m : nat) :
  (0 < y)%Z -> (0 <= v)%Q ->
  Qle_bool (inject_Z y) (exp_below v m) = true ->
  ln (IZR y) <= Q2R v * 2 ^ m.
Proof.
  intros Hy Hv Hb. apply Qle_bool_iff, Qle_Rle in Hb.
  pose proof (exp_below_le v m Hv) as He.
  assert (Q2R (inject_Z y) = IZR y) as Ey by (unfold Q2R; simpl; lra).
  rewrite Ey in Hb. apply IZR_lt in Hy.
  rewrite <- (ln_exp (Q2R v * 2 ^ m)).
  destruct (Rle_lt_or_eq_dec _ _ (Rle_trans _ _ _ Hb He)) as [Hlt|Heq].
  - left. apply ln_increasing; assumption.
  - rewrite Heq. lra.
Qed.

Lemma ln_ge_bound (y : Z) (v : Q) (m : nat) :
  (0 < y)%Z -> (v < 1)%Q ->
  Qle_bool (exp_above v m) (inject_Z y) = true ->
  Q2R v * 2 ^ m <= ln (IZR y).
Proof.
  intros Hy Hv Hb. apply Qle_bool_iff, Qle_Rle in Hb.
  pose proof (exp_above_ge v m Hv) as He.
  assert (Q2R (inject_Z y) = IZR y) as Ey by (unfold Q2R; simpl; lra).
  rewrite Ey in Hb.
  rewrite <- (ln_exp (Q2R v * 2 ^ m)).
  destruct (Rle_lt_or_eq_dec _ _ (Rle_trans _ _ _ He Hb)) as [Hlt|Heq].
  - left. apply ln_increasing; [apply exp_pos | assumption].
  - rewrite Heq. lra.
Qed.

(** A number of millionths, over [2^32]. *)
Lemma millionths n :
  Q2R (n # (1000000 * 2 ^ 32)) * 2 ^ 32 = IZR n / 1000000.
Proof.
  unfold Q2R. cbn [Qnum Qden]. rewrite Pos2Z.inj_mul, mult_IZR.
  replace (IZR (Z.pos (2 ^ 32))) with (2 ^ 32).
  - field.
  - rewrite pow_IZR. f_equal.
Qed.

Ltac ln_between lo hi y :=
  split;
  [ rewrite <- (millionths lo); apply (ln_ge_bound y _ 32);
    [lia | reflexivity | vm_compute; reflexivity]
  | rewrite <- (millionths hi); apply (ln_le_bound y _ 32);
    [lia | discriminate | vm_compute; reflexivity] ].

Lemma ln_501 : 6216605 / 1000000 <= ln 501 <= 6216608 / 1000000.
Proof. ln_between 6216605%Z 6216608%Z 501%Z. Qed.

Lemma ln_1000001 : 13815510 / 1000000 <= ln 1000001 <= 13815513 / 1000000.
Proof. ln_between 13815510%Z 13815513%Z 1000001%Z. Qed.

Lemma ln_5001 : 8517392 / 1000000 <= ln 5001 <= 8517395 / 1000000.
Proof. ln_between 8517392%Z 8517395%Z 5001%Z. Qed.

Lemma ln_2000001 : 14508657 / 1000000 <= ln 2000001 <= 14508660 / 1000000.
Proof. ln_between 14508657%Z 14508660%Z 2000001%Z. Qed.

Lemma Rdiv_between n d lo hi :
  0 < d -> lo * d <= n <= hi * d -> lo <= n / d <= hi.
Proof.
  intros Hd [Hlo Hhi]. split.
  - apply (Rmult_le_reg_r d); [assumption|].
    unfold Rdiv. rewrite Rmult_assoc, Rinv_l by lra. lra.
  - apply (Rmult_le_reg_r d); [assumption|].
    unfold Rdiv. rewrite Rmult_assoc, Rinv_l by lra. lra.
Qed.

(** The sum of the example lies between 823.206 and 823.207. *)
Lemma example_sum :
  823206 / 1000 <=
    450 + 0.9 * 300 + (1 - ln 501 / ln 1000001) * 150
      + (ln 5001 / ln 2000001) * (-80) + (2900 / 3000) * 70
    <= 823207 / 1000.
Proof.
  pose proof ln_501 as [A1 A2]. pose proof ln_1000001 as [B1 B2].
  pose proof ln_5001 as [C1 C2]. pose proof ln_2000001 as [D1 D2].
  assert (449972 / 1000000 <= ln 501 / ln 1000001 <= 449974 / 1000000)
    as [E1 E2] by (apply Rdiv_between; lra).
  assert (587055 / 1000000 <= ln 5001 / ln 2000001 <= 587057 / 1000000)
    as [F1 F2] by (apply Rdiv_between; lra).
  lra.
Qed.

(** A real strictly within a half of an integer rounds to it. *)
Lemma round_half_even_near y k :
  IZR k - 1 / 2 < y < IZR k + 1 / 2 -> round_half_even y = k.
Proof.
  intros [Hlo Hhi]. pose proof (Int_part_bounds y) as [Flo Fhi].
  assert (Int_part y = k - 1 \/ Int_part y = k)%Z as [E|E].
  { assert (k - 2 < Int_part y)%Z.
    { apply lt_IZR. rewrite minus_IZR. lra. }
    assert (Int_part y < k + 1)%Z.
    { apply lt_IZR. rewrite plus_IZR. lra. }
    lia. }
  - unfold round_half_even. rewrite E in *. rewrite minus_IZR in *.
    rewrite (Rltb_false _ (1 / 2)) by lra. rewrite Rltb_true by lra. lia.
  - unfold round_half_even. rewrite E in *.
    rewrite Rltb_true by lra. reflexivity.
Qed.

(** The sum of the five steps on the item of the example. *)
Lemma example_raw_score (t s : json) (u : string) (o : option R) :
  raw_score
    {| id := 2900; title := t; slug := s; difficulty := "Hard";
       totalAccepted := 500; totalSubmissions := 5000;
       acceptanceRate := 1 # 10; url := u; trueDifficultyScore := o |}
    3000 (max_log_val 2000000) (max_log_val 1000000) =
  450 + 0.9 * 300 + (1 - ln 501 / ln 1000001) * 150
    + (ln 5001 / ln 2000001) * (-80) + (2900 / 3000) * 70.
Proof.
  unfold raw_score, add_newness, add_popularity, add_low_accepted,
    add_acceptance, add_base, max_log_val. simpl.
  autorewrite with weights.
  change (base_score "Hard") with 450%Z.
  rewrite !Rltb_true by (apply log1p_pos; lia).
  unfold log1p.
  replace (1 + 500) with 501 by lra.
  replace (1 + 5000) with 5001 by lra.
  replace (1 + 1000000) with 1000001 by lra.
  replace (1 + 2000000) with 2000001 by lra.
  replace (Q2R (1 # 10)) with (1 / 10) by (unfold Q2R; simpl; lra).
  lra.
Qed.

(** C3.  The item {difficulty Hard, acceptanceRate 0.10, totalAccepted
    500, totalSubmissions 5000, id 2900}, scored with the maxima 3000,
    2000000 and 1000000 as [main] passes them on: the call returns the
    reference it was given, and the object behind it has the fields it
    had and 823.21 under 'trueDifficultyScore'.  This number is
    round(450 + 0.9*300 + (1 - ln 501 / ln 1000001)*150
          + (ln 5001 / ln 2000001)*(-80) + (2900/3000)*70, 2):
    it is what [round2] makes of the sum, and it is the one number of
    hundredths within 0.005 of the sum. *)
Theorem score_example (t s : json) (u : string) (o : option R) :
  let x := 450 + 0.9 * 300 + (1 - ln 501 / ln 1000001) * 150
           + (ln 5001 / ln 2000001) * (-80) + (2900 / 3000) * 70 in
  calculate_true_difficulty_score
    [{| id := 2900; title := t; slug := s; difficulty := "Hard";
        totalAccepted := 500; totalSubmissions := 5000;
        acceptanceRate := 1 # 10; url := u; trueDifficultyScore := o |}]
    0 3000 (max_log_val 2000000) (max_log_val 1000000) =
  Ok ([{| id := 2900; title := t; slug := s; difficulty := "Hard";
          totalAccepted := 500; totalSubmissions := 5000;
          acceptanceRate := 1 # 10; url := u;
          trueDifficultyScore := Some (82321 / 100) |}], 0%nat) /\
  round2 x = 82321 / 100 /\
  - (5 / 1000) < 82321 / 100 - x < 5 / 1000.
Proof.
  intros x. pose proof example_sum as Hx. fold x in Hx.
  assert (round2 x = 82321 / 100) as Hr.
  { unfold round2. rewrite (round_half_even_near _ 82321); lra. }
  split; [|split; [exact Hr | lra]].
  match goal with
  | |- calculate_true_difficulty_score [?p] _ _ _ _ = _ =>
      rewrite (calculate_value [p] 0 p _ _ _ eq_refl)
  end.
  rewrite in_range_no_overflow by (repeat split; reflexivity).
  unfold true_difficulty_score. rewrite example_raw_score. fold x.
  rewrite Hr. reflexivity.
Qed.


(** C8, as amended.  The newness step adds (id / maxId) * W_newness to
    the score when maxId is positive and nothing otherwise; the quotient
    is not clamped.  What it adds lies between 0 and W_newness when
    0 <= id <= maxId. *)
Theorem newness_contribution (p : problem) (max_frontend_id : Z) (score : R) :
  add_newness p max_frontend_id score - score =
    (if (0 <? max_frontend_id)%Z
     then IZR (id p) / IZR max_frontend_id * IZR (weight "newness_premium")
     else 0) /\
  ((0 <= id p <= max_frontend_id)%Z ->
   0 <= add_newness p max_frontend_id score - score
     <= IZR (weight "newness_premium")).
Proof.
  unfold add_newness. autorewrite with weights. split.
  - destruct (0 <? max_frontend_id)%Z; lra.
  - intros [Hlo Hhi]. destruct (0 <? max_frontend_id)%Z eqn:Em; [|lra].
    apply Z.ltb_lt, IZR_lt in Em. apply IZR_le in Hlo, Hhi.
    assert (0 <= IZR (id p) / IZR max_frontend_id <= 1) as [H0 H1].
    { split.
      - apply Rmult_le_pos; [assumption|].
        left. apply Rinv_0_lt_compat. assumption.
      - apply (Rmult_le_reg_r (IZR max_frontend_id)); [assumption|].
        unfold Rdiv. rewrite Rmult_assoc, Rinv_l by lra. lra. }
    lra.
Qed.

Lemma newness_contribution_witness :
  0 <= add_newness (sample_problem 2900) 3000 0 - 0
    <= IZR (weight "newness_premium").
Proof.
  apply (proj2 (newness_contribution (sample_problem 2900) 3000 0)).
  simpl. lia.
Defined.

(** C8 as stated fails for an id above maxId: with id 6000 and maxId
    3000 the step adds 140, twice the weight. *)
Lemma newness_exceeds_weight :
  add_newness (sample_problem 6000) 3000 0 - 0 = 140 /\
  IZR (weight "newness_premium") < add_newness (sample_problem 6000) 3000 0 - 0.
Proof.
  unfold add_newness. autorewrite with weights. simpl. split; lra.
Qed.

(** C10, as amended.  When none of the conversions overflows, the call
    returns the reference it was given; the object it points to keeps
    id, title, slug, difficulty, totalAccepted, totalSubmissions,
    acceptanceRate and url and has trueDifficultyScore set to the
    score; no other object of the heap changes.  When one overflows,
    the call raises OverflowError: nothing is returned and nothing has
    been stored.  No conversion overflows on an item whose counts and
    id are below 2^1024 - 2^970 in absolute value. *)
Theorem score_frame (h : heap) (a : nat) (p : problem) (max_frontend_id : Z)
    (max_submissions_log max_accepted_log : R) :
  h !! a = Some p ->
  (score_overflows p max_frontend_id max_submissions_log max_accepted_log
     = false ->
   exists h' p',
     calculate_true_difficulty_score h a max_frontend_id
       max_submissions_log max_accepted_log = Ok (h', a) /\
     h' !! a = Some p' /\
     id p' = id p /\ title p' = title p /\ slug p' = slug p /\
     difficulty p' = difficulty p /\ totalAccepted p' = totalAccepted p /\
     totalSubmissions p' = totalSubmissions p /\
     acceptanceRate p' = acceptanceRate p /\ url p' = url p /\
     trueDifficultyScore p' =
       Some (true_difficulty_score p max_frontend_id max_submissions_log
               max_accepted_log) /\
     length h' = length h /\
     forall b : nat, b <> a -> h' !! b = h !! b) /\
  (score_overflows p max_frontend_id max_submissions_log max_accepted_log
     = true ->
   calculate_true_difficulty_score h a max_frontend_id
     max_submissions_log max_accepted_log = Raise OverflowError) /\
  (item_in_range p ->
   score_overflows p max_frontend_id max_submissions_log max_accepted_log
     = false).
Proof.
  intros Hp. rewrite (calculate_value _ _ _ _ _ _ Hp).
  split; [|split].
  - intros ->. eexists _, _. split; [reflexivity|]. split.
    + apply list_lookup_insert_eq. eapply lookup_lt_Some, Hp.
    + simpl. repeat split; try reflexivity.
      * apply length_insert.
      * intros b Hb. apply list_lookup_insert_ne. congruence.
  - intros ->. reflexivity.
  - apply in_range_no_overflow.
Qed.

Lemma score_frame_witness :
  exists h' p',
    calculate_true_difficulty_score [sample_problem 1; sample_problem 2] 1 3000 1 1
      = Ok (h', 1%nat) /\
    h' !! 1%nat = Some p' /\
    id p' = id (sample_problem 2) /\ title p' = title (sample_problem 2) /\
    slug p' = slug (sample_problem 2) /\
    difficulty p' = difficulty (sample_problem 2) /\
    totalAccepted p' = totalAccepted (sample_problem 2) /\
    totalSubmissions p' = totalSubmissions (sample_problem 2) /\
    acceptanceRate p' = acceptanceRate (sample_problem 2) /\
    url p' = url (sample_problem 2) /\
    trueDifficultyScore p' =
      Some (true_difficulty_score (sample_problem 2) 3000 1 1) /\
    length h' = length [sample_problem 1; sample_problem 2] /\
    forall b : nat,
      b <> 1%nat -> h' !! b = [sample_problem 1; sample_problem 2] !! b.
Proof.
  destruct (score_frame [sample_problem 1; sample_problem 2] 1 (sample_problem 2)
              3000 1 1 eq_refl) as (Hreturns & _ & Hrange).
  apply Hreturns, Hrange. repeat split; reflexivity.
Defined.

(** C10 as stated fails on an id too large for a float: the item with
    id -2^1024, scored with the maximal id 1 that [process_problems]
    returns with it, makes the call raise OverflowError at the
    division of line 185; no record is returned and no score is set. *)
Lemma score_raises_overflow :
  calculate_true_difficulty_score [sample_problem (- 2 ^ 1024)] 0 1
    (max_log_val 5000) (max_log_val 500) = Raise OverflowError /\
  trueDifficultyScore (sample_problem (- 2 ^ 1024)) = None.
Proof.
  split; [|reflexivity].
  rewrite (calculate_value [sample_problem (- 2 ^ 1024)] 0
             (sample_problem (- 2 ^ 1024)) _ _ _ eq_refl).
  unfold score_overflows.
  assert ((0 <? 1)%Z &&
          Qle_bool float_overflow
            (Qabs (id (sample_problem (- 2 ^ 1024)) # Z.to_pos 1)) = true)
    as -> by (vm_compute; reflexivity).
  rewrite orb_true_r. reflexivity.
Qed.

(** ** The sort *)

Section SortedFacts.
Context {A : Type} (key : A -> R).

Lemma insert_desc_perm x l : Permutation (insert_desc key x l) (x :: l).
Proof.
  induction l as [|y l IH]; simpl; [reflexivity|].
  destruct (Rltb (key x) (key y)); [|reflexivity].
  rewrite IH. apply perm_swap.
Qed.

Lemma sorted_desc_perm l : Permutation (sorted_desc key l) l.
Proof.
  induction l as [|x l IH]; simpl; [reflexivity|].
  rewrite insert_desc_perm, IH. reflexivity.
Qed.





(** Sorting the pairs of key and element by the key is sorting the
    elements. *)
Lemma insert_desc_keyed x l :
  insert_desc fst (key x, x) (map (fun a => (key a, a)) l) =
  map (fun a => (key a, a)) (insert_desc key x l).
Proof.
  induction l as [|y l IH]; [reflexivity|]. simpl.
  destruct (Rltb (key x) (key y)); [|reflexivity]. simpl. rewrite IH. reflexivity.
Qed.

Lemma sorted_desc_keyed l :
  map snd (sorted_desc fst (map (fun a => (key a, a)) l)) = sorted_desc key l.
Proof.
  assert (sorted_desc fst (map (fun a => (key a, a)) l) =
          map (fun a => (key a, a)) (sorted_desc key l)) as ->.
  { induction l as [|x l IH]; [reflexivity|]. simpl.
    rewrite IH. apply insert_desc_keyed. }
  rewrite map_map. simpl. apply map_id.
Qed.

End SortedFacts.

(** The key of the sort is the field of the object: on references that
    carry a score the lookups of line 234 return what [stored_score]
    reads. *)
Lemma keyed_scores h l :
  Forall (fun a => exists p s,
            h !! a = Some p /\ trueDifficultyScore p = Some s) l ->
  mapM (fun a => s ← score_key h a; Ok (s, a)) l =
  Ok (map (fun a => (stored_score h a, a)) l).
Proof.
  induction 1 as [|a l (p & s & Hp & Hs) _ IH]; [reflexivity|]. simpl.
  rewrite IH. unfold score_key, stored_score, heap in *. rewrite Hp, Hs.
  reflexivity.
Qed.

(** Scores 2, 3, 2: the item with 3 comes first, the two with 2 keep
    their order. *)
Example sorted_problems_run :
  sorted_problems scored_heap [0; 1; 2]%nat = Ok [1; 0; 2]%nat.
Proof.
  unfold sorted_problems. simpl. unfold score_key. simpl.
  rewrite (Rltb_false 3 2) by lra. simpl.
  rewrite (Rltb_true 2 3) by lra. simpl.
  rewrite (Rltb_false 2 2) by lra.
  reflexivity.
Qed.



(** ** The cache *)

Local Open Scope Z_scope.

Lemma load_miss fs now :
  cache_absent_or_expired fs now -> load_problems_from_cache fs now = Ok JNull.
Proof.
  unfold cache_absent_or_expired, load_problems_from_cache.
  destruct (entry fs) as [f|]; [|reflexivity]. intros ->. reflexivity.
Qed.

Lemma load_raises fs now e :
  cache_unreadable fs now e -> load_problems_from_cache fs now = Raise e.
Proof.
  intros (f & Hf & Hfresh & Hbad). unfold load_problems_from_cache.
  rewrite Hf, Hfresh.
  destruct Hbad as [[-> ->] | [-> Hload]]; [reflexivity | exact Hload].
Qed.

Section CacheFacts.
Context `{Builtins}.

Lemma main_after_miss w :
  load_problems_from_cache (fs w) (now w) = Ok JNull ->
  In Fetch (events (main w)).
Proof.
  intros Hload. unfold main. rewrite Hload. simpl.
  destruct (fetch_problems_from_api_rest (response w)) as [fetched|e];
    simpl; [|auto].
  destruct (truthy fetched); simpl; [|auto].
  destruct (save_problems_to_cache _ _ _) as [fs' [[]|e]]; simpl; auto.
Qed.

(** C7, as amended.  When the cache file is absent or expired,
    [load_problems_from_cache] returns None and [main] goes on to fetch.
    When a file within expiry cannot be opened, or holds text that is
    not a JSON document, the exception is not caught:
    [load_problems_from_cache] raises it and [main] ends with it,
    having made no fetch. *)
Theorem cache_load_failure (w : world) :
  (cache_absent_or_expired (fs w) (now w) ->
   load_problems_from_cache (fs w) (now w) = Ok JNull /\
   In Fetch (events (main w))) /\
  (forall e : exn,
     cache_unreadable (fs w) (now w) e ->
     load_problems_from_cache (fs w) (now w) = Raise e /\
     outcome (main w) = Raise e /\
     events (main w) = [CacheLoad]).
Proof.
  split.
  - intros Hmiss. apply load_miss in Hmiss. split; [assumption|].
    apply main_after_miss, Hmiss.
  - intros e Hbad. apply load_raises in Hbad. split; [assumption|].
    unfold main. rewrite Hbad. split; reflexivity.
Qed.

End CacheFacts.

Lemma cache_load_failure_witness :
  (load_problems_from_cache (fs no_cache_world) (now no_cache_world) = Ok JNull /\
   In Fetch (events (main (H := ascii_builtins) no_cache_world))) /\
  (load_problems_from_cache (fs unreadable_cache_world)
     (now unreadable_cache_world) = Raise OSError /\
   outcome (main (H := ascii_builtins) unreadable_cache_world) = Raise OSError /\
   events (main (H := ascii_builtins) unreadable_cache_world) = [CacheLoad]).
Proof.
  split.
  - apply (proj1 (cache_load_failure (H := ascii_builtins) no_cache_world)).
    exact I.
  - apply (proj2 (cache_load_failure (H := ascii_builtins) unreadable_cache_world)).
    exists unreadable_cache_file.
    split; [reflexivity|]. split; [reflexivity|]. left. split; reflexivity.
Defined.

(** C7 as stated fails when the cache file is within expiry and cannot
    be opened: [main] ends with the OSError of the load and never
    fetches, although the API would have answered. *)
Lemma unreadable_cache_crashes :
  outcome (main (H := ascii_builtins) unreadable_cache_world) = Raise OSError /\
  events (main (H := ascii_builtins) unreadable_cache_world) = [CacheLoad].
Proof. split; reflexivity. Qed.

(** C9, as amended.  A save that is not refused overwrites the file in
    place: opening it for writing empties it, and the document is
    complete when the file is closed.  After the call the entry is the
    payload with the time of the call, and a load within expiry returns
    the payload; between the open and the close the entry is an
    incomplete document, and a load within expiry raises
    JSONDecodeError on it. *)
Theorem save_overwrites_in_place (fs0 : filesystem) (problems : json) (now : Q)
    (n : nat) :
  py_len problems = Ok n ->
  can_open_w fs0 = true ->
  let opened := cache_open_w now fs0 in
  let saved := cache_dump_close problems now opened in
  save_states fs0 problems now = [fs0; opened; saved] /\
  save_problems_to_cache fs0 problems now = (saved, Ok ()) /\
  entry opened =
    Some {| body := Incomplete; mtime := now; readable := cache_readable fs0 |} /\
  entry saved =
    Some {| body := Document problems; mtime := now;
            readable := cache_readable fs0 |} /\
  forall later : Q,
    Qltb (later - now) expiry_seconds = true ->
    cache_readable fs0 = true ->
    load_problems_from_cache saved later = Ok problems /\
    load_problems_from_cache opened later = Raise JSONDecodeError.
Proof.
  intros Hlen Hw opened saved. split; [reflexivity|]. split.
  - unfold save_problems_to_cache. rewrite Hlen, Hw. reflexivity.
  - split; [reflexivity|]. split; [reflexivity|].
    intros later Hfresh Hr. unfold load_problems_from_cache, cache_fresh. simpl.
    change (cache_readable opened) with (cache_readable fs0).
    rewrite Hfresh, Hr. split; reflexivity.
Qed.

Lemma save_overwrites_in_place_witness :
  let opened := cache_open_w 100 old_cache in
  let saved := cache_dump_close (JList [JInt 2]) 100 opened in
  save_states old_cache (JList [JInt 2]) 100 = [old_cache; opened; saved] /\
  save_problems_to_cache old_cache (JList [JInt 2]) 100 = (saved, Ok ()) /\
  entry opened =
    Some {| body := Incomplete; mtime := 100;
            readable := cache_readable old_cache |} /\
  entry saved =
    Some {| body := Document (JList [JInt 2]); mtime := 100;
            readable := cache_readable old_cache |} /\
  forall later : Q,
    Qltb (later - 100) expiry_seconds = true ->
    cache_readable old_cache = true ->
    load_problems_from_cache saved later = Ok (JList [JInt 2]) /\
    load_problems_from_cache opened later = Raise JSONDecodeError.
Proof.
  apply (save_overwrites_in_place old_cache (JList [JInt 2]) 100 1); reflexivity.
Defined.

(** C9 as stated fails: a save over a valid entry, interrupted after
    the open, leaves an incomplete entry with a new time stamp; the next
    load reads it and raises. *)
Lemma save_leaves_truncated_entry :
  load_problems_from_cache old_cache 101 = Ok (JList [JInt 1]) /\
  save_states old_cache (JList [JInt 2]) 100 !! 1%nat =
    Some (cache_open_w 100 old_cache) /\
  entry (cache_open_w 100 old_cache) =
    Some {| body := Incomplete; mtime := 100; readable := true |} /\
  load_problems_from_cache (cache_open_w 100 old_cache) 101 =
    Raise JSONDecodeError.
Proof. repeat split. Qed.

(** * Further properties *)

(** ** The normalizer, record by record *)

Local Open Scope Z_scope.

Lemma bind_raise {A B} (m : result A) (f : A -> result B) (e : exn) :
  m ≫= f = Raise e -> m = Raise e \/ exists a, m = Ok a /\ f a = Raise e.
Proof. destruct m; simpl; [eauto | intros [= ->]; auto]. Qed.

(** [m ≫= f = Raise e] in [E]: either [m] raises, or the rest does. *)
Ltac raise_step E :=
  let v := fresh "v" in
  apply bind_raise in E as [E | (v & _ & E)]; [|cbv beta in E].

(** Equality of two results that are tuples of a list and integers. *)
Ltac tuple_eq :=
  f_equal; repeat (apply (f_equal2 pair)); try reflexivity; try lia.

Section NormalizerRecords.
Context `{Builtins}.

(** A kept record yields the dictionary of line 130. *)
Lemma try_body_item stat di p :
  try_body stat di = Ok (Some p) ->
  exists st d fid acc sub lvl dstr rate,
    stat = JDict st /\ di = JDict d /\
    fid <> 0 /\
    eq_str (field st "question__title_slug" (JStr "N/A")) "N/A" = false /\
    int_dict_get DIFFICULTY_API_MAP lvl = Some dstr /\
    p = item_of_record st d fid acc sub dstr rate.
Proof.
  unfold try_body. intros E.
  destruct stat as [| | | | |?|st]; try discriminate.
  get_inv E. bind_inv E fid Efid. get_inv E. get_inv E.
  get_inv E. bind_inv E acc Eacc. get_inv E. bind_inv E sub Esub.
  destruct di as [| | | | |?|d]; try discriminate.
  get_inv E. bind_inv E lvl Elvl.
  destruct (eq_str _ _) eqn:Eslug; [discriminate|].
  destruct (fid =? 0) eqn:Ez; [discriminate|].
  destruct (lvl =? 0); [discriminate|]. cbn [orb] in E.
  bind_inv E rate Erate. cbv zeta in E.
  destruct (int_dict_get DIFFICULTY_API_MAP lvl) as [dstr|] eqn:Ed;
    cbn [from_option] in E; [|discriminate].
  destruct (String.eqb dstr "Unknown"); [discriminate|].
  injection E as <-. apply Z.eqb_neq in Ez.
  exists st, d, fid, acc, sub, lvl, dstr, rate. auto 10.
Qed.

Lemma api_map_values lvl dstr :
  int_dict_get DIFFICULTY_API_MAP lvl = Some dstr ->
  In dstr ["Easy"; "Medium"; "Hard"].
Proof.
  unfold DIFFICULTY_API_MAP. cbn [int_dict_get]. intros E.
  destruct (1 =? lvl); [injection E as <-; simpl; auto|].
  destruct (2 =? lvl); [injection E as <-; simpl; auto|].
  destruct (3 =? lvl); [injection E as <-; simpl; auto|]. discriminate.
Qed.

Lemma eq_str_false v s : eq_str v s = false -> v <> JStr s.
Proof.
  intros E ->. simpl in E. rewrite String.eqb_refl in E. discriminate.
Qed.

Lemma process_record_wellformed r p :
  process_record r = Ok (Some p) -> item_wellformed p.
Proof.
  intros E. apply process_record_keep in E as (pd & -> & _ & E).
  apply try_body_item in E
    as (st & d & fid & acc & sub & lvl & dstr & rate &
        _ & _ & Hfid & Eslug & Hd & ->).
  unfold item_wellformed. simpl. repeat split; auto.
  - apply eq_str_false, Eslug.
  - eapply api_map_values, Hd.
Qed.

(** The exceptions of the conversions. *)
Lemma py_get_raise v k d e : py_get v k d = Raise e -> e = AttributeError.
Proof. destruct v; simpl; congruence. Qed.

Lemma py_int_raise v e :
  py_int v = Raise e ->
  e = TypeError \/ e = ValueError \/
  (e = OverflowError /\ exists neg, v = JFloat (FInf neg)).
Proof.
  destruct v as [| | |[| |]| | |]; simpl; try discriminate;
    try (intros [= <-]; eauto 6).
  destruct (int_of_str s); [discriminate | intros [= <-]; auto].
Qed.

Lemma py_truediv_raise a b e : py_truediv a b = Raise e -> e = OverflowError.
Proof. unfold py_truediv. destruct (Qle_bool _ _); congruence. Qed.

Lemma try_body_raise stat di e :
  try_body stat di = Raise e ->
  e = AttributeError \/ e = TypeError \/ e = ValueError \/ e = OverflowError.
Proof.
  unfold try_body. intros E.
  raise_step E; [apply py_get_raise in E; auto|].
  raise_step E; [apply py_int_raise in E as [|[|[? _]]]; auto|].
  raise_step E; [apply py_get_raise in E; auto|].
  raise_step E; [apply py_get_raise in E; auto|].
  raise_step E; [apply py_get_raise in E; auto|].
  raise_step E; [apply py_int_raise in E as [|[|[? _]]]; auto|].
  raise_step E; [apply py_get_raise in E; auto|].
  raise_step E; [apply py_int_raise in E as [|[|[? _]]]; auto|].
  raise_step E; [apply py_get_raise in E; auto|].
  raise_step E; [apply py_int_raise in E as [|[|[? _]]]; auto|].
  destruct (_ || _); [discriminate|].
  raise_step E.
  - destruct (0 <? _); [apply py_truediv_raise in E; auto | discriminate].
  - cbv zeta in E. destruct (String.eqb _ _); discriminate.
Qed.

(** The [except] clause lets only these two through. *)
Lemma process_record_raise r e :
  process_record r = Raise e -> e = AttributeError \/ e = OverflowError.
Proof.
  unfold process_record. intros E.
  raise_step E; [apply py_get_raise in E; auto|].
  raise_step E; [apply py_get_raise in E; auto|].
  destruct (_ || _); [discriminate|].
  raise_step E; [apply py_get_raise in E; auto|].
  destruct (truthy _); [discriminate|].
  destruct (try_body _ _) as [o|e'] eqn:Et; [discriminate|].
  apply try_body_raise in Et.
  destruct e'; try discriminate; injection E as <-; auto;
    destruct Et as [|[|[|]]]; discriminate.
Qed.

Lemma py_int_field st k :
  finite_field st k ->
  (exists n, py_int (field st k (JInt 0)) = Ok n) \/
  py_int (field st k (JInt 0)) = Raise TypeError \/
  py_int (field st k (JInt 0)) = Raise ValueError.
Proof.
  intros Hfin. destruct (py_int (field st k (JInt 0))) as [n|e] eqn:E; [eauto|].
  apply py_int_raise in E as [-> | [-> | [_ [neg Hv]]]]; auto.
  exfalso. apply (Hfin neg). unfold field in Hv.
  destruct (dict_get st k); simpl in Hv; [congruence | discriminate].
Qed.

Lemma py_truediv_small a b :
  Z.abs a < 2 ^ 1023 -> 0 < b -> exists q, py_truediv a b = Ok q.
Proof.
  intros Ha Hb. unfold py_truediv.
  destruct (Qle_bool float_overflow (Qabs (a # Z.to_pos b))) eqn:E; [|eauto].
  exfalso. apply Qle_bool_iff in E. unfold Qle, float_overflow in E. simpl in E.
  assert (2 ^ 1023 < 2 ^ 1024 - 2 ^ 970) as Hc by reflexivity.
  assert (1 <= Z.pos (Z.to_pos b)) by lia. nia.
Qed.

(** On two dictionaries with finite numeric fields the [try] block
    raises nothing the [except] clause lets through. *)
Lemma try_body_caught st d :
  finite_field st "frontend_question_id" ->
  finite_field st "total_acs" ->
  finite_field st "total_submitted" ->
  finite_field d "level" ->
  (forall n, py_int (field st "total_acs" (JInt 0)) = Ok n ->
             Z.abs n < 2 ^ 1023) ->
  (exists o, try_body (JDict st) (JDict d) = Ok o) \/
  try_body (JDict st) (JDict d) = Raise TypeError \/
  try_body (JDict st) (JDict d) = Raise ValueError.
Proof.
  intros Hid Hacs Hsub Hlvl Hsmall. unfold try_body.
  cbn [py_get mbind result_bind].
  destruct (py_int_field st _ Hid) as [[fid ->] | [-> | ->]]; auto.
  destruct (py_int_field st _ Hacs) as [[acc Eacc] | [-> | ->]]; auto.
  rewrite Eacc.
  destruct (py_int_field st _ Hsub) as [[sub ->] | [-> | ->]]; auto.
  destruct (py_int_field d _ Hlvl) as [[lvl ->] | [-> | ->]]; auto.
  left. cbn [mbind result_bind]. destruct (_ || _); [eauto|].
  destruct (0 <? sub) eqn:Epos.
  - apply Z.ltb_lt in Epos.
    destruct (py_truediv_small acc sub (Hsmall _ Eacc) Epos) as [q ->].
    cbn [mbind result_bind]. cbv zeta. destruct (String.eqb _ _); eauto.
  - cbn [mbind result_bind]. cbv zeta. destruct (String.eqb _ _); eauto.
Qed.

Lemma process_record_shaped r :
  record_shaped r -> exists o, process_record r = Ok o.
Proof.
  intros (pd & -> & Hs & Hd & Hst & Hdi). unfold process_record.
  cbn [py_get mbind result_bind].
  destruct (truthy (field pd "stat" JNull)) eqn:Ets; [|simpl; eauto].
  destruct (truthy (field pd "difficulty" JNull)) eqn:Etd; [|simpl; eauto].
  simpl. destruct (truthy (field pd "paid_only" (JBool false))); [eauto|].
  destruct Hs as [Hs | [st Hs]]; [congruence|].
  destruct Hd as [Hd | [d Hd]]; [congruence|].
  destruct (Hst _ Hs) as (H1 & H2 & H3 & H4). specialize (Hdi _ Hd).
  rewrite Hs, Hd.
  destruct (try_body_caught st d H1 H2 H3 Hdi H4) as [[o ->] | [-> | ->]]; eauto.
Qed.

(** ** The normalizer, over the loop *)

(** The items added and the maxima reached, from any start of the loop. *)
Lemma process_loop_spec l : forall acc m1 m2 m3 items a b c,
  process_loop l acc m1 m2 m3 = Ok (items, a, b, c) ->
  exists kept,
    items = acc ++ kept /\
    (length kept <= length l)%nat /\
    a = fold_left Z.max (map id kept) m1 /\
    b = fold_left Z.max (map totalSubmissions kept) m2 /\
    c = fold_left Z.max (map totalAccepted kept) m3.
Proof.
  induction l as [|r l IH]; intros acc m1 m2 m3 items a b c E; simpl in E.
  - injection E as <- <- <- <-. exists []. rewrite app_nil_r.
    repeat split; simpl; auto.
  - destruct (process_record r) as [[p|]|e]; simpl in E; [| |discriminate].
    + apply IH in E as (kept & -> & Hlen & -> & -> & ->).
      exists (p :: kept). rewrite <- app_assoc. simpl.
      repeat split; auto; simpl; lia.
    + apply IH in E as (kept & -> & Hlen & -> & -> & ->).
      exists kept. repeat split; auto; simpl; lia.
Qed.

Lemma fold_max_bounds l : forall m,
  m <= fold_left Z.max l m /\
  Forall (fun x => x <= fold_left Z.max l m) l /\
  (fold_left Z.max l m = m \/ In (fold_left Z.max l m) l).
Proof.
  induction l as [|x l IH]; intros m; simpl.
  - split; [lia|]. split; [constructor | left; reflexivity].
  - destruct (IH (Z.max m x)) as (Hm & Hall & Hin). split; [lia|]. split.
    + constructor; [lia | assumption].
    + destruct Hin as [Heq | Hin]; [|auto].
      rewrite Heq. destruct (Z.max_spec m x) as [[_ ->] | [_ ->]]; auto.
Qed.

(** The loop started from items and maxima already gathered is the
    loop started afresh, with its result added to them. *)
Lemma process_loop_shift l : forall acc m1 m2 m3,
  0 <= m1 -> 0 <= m2 -> 0 <= m3 ->
  process_loop l acc m1 m2 m3 =
  process_loop l [] 0 0 0 ≫= fun '(items, a, b, c) =>
    Ok (acc ++ items, Z.max m1 a, Z.max m2 b, Z.max m3 c).
Proof.
  induction l as [|r l IH]; intros acc m1 m2 m3 H1 H2 H3; simpl.
  - rewrite app_nil_r, !Z.max_l by assumption. reflexivity.
  - destruct (process_record r) as [[p|]|e]; simpl;
      [| apply IH; assumption | reflexivity].
    rewrite (IH (acc ++ [p])) by lia. rewrite (IH [p]) by lia.
    destruct (process_loop l [] 0 0 0) as [[[[items a] b] c]|e]; simpl;
      [|reflexivity].
    rewrite <- app_assoc. simpl. tuple_eq.
Qed.

Lemma process_loop_nonneg l items a b c :
  process_loop l [] 0 0 0 = Ok (items, a, b, c) -> 0 <= a /\ 0 <= b /\ 0 <= c.
Proof.
  intros E. apply process_loop_spec in E as (kept & _ & _ & -> & -> & ->).
  repeat split; apply fold_max_bounds.
Qed.

Lemma process_problems_as_loop raw :
  process_problems raw =
  match raw with
  | [] => Ok ([], 0, 0, 0)
  | _ => process_loop raw [] 0 0 0 ≫= fun '(items, a, b, c) =>
           Ok (items, Z.max 1 a, Z.max 1 b, Z.max 1 c)
  end.
Proof.
  destruct raw as [|r raw]; [reflexivity|]. unfold process_problems.
  destruct (process_loop _ _ _ _ _) as [[[[items a] b] c]|e]; reflexivity.
Qed.

Lemma process_loop_skip l1 r l2 :
  process_record r = Ok None ->
  forall acc m1 m2 m3,
    process_loop (l1 ++ r :: l2) acc m1 m2 m3 =
    process_loop (l1 ++ l2) acc m1 m2 m3.
Proof.
  intros Hr acc m1 m2 m3. rewrite !process_loop_app.
  destruct (process_loop l1 acc m1 m2 m3) as [[[[items a] b] c]|e];
    [|reflexivity].
  simpl. rewrite Hr. reflexivity.
Qed.

Lemma process_loop_raise l : forall acc m1 m2 m3 e,
  process_loop l acc m1 m2 m3 = Raise e ->
  exists r, In r l /\ process_record r = Raise e.
Proof.
  induction l as [|r l IH]; intros acc m1 m2 m3 e E; simpl in E; [discriminate|].
  destruct (process_record r) as [[p|]|e'] eqn:Er; simpl in E.
  - apply IH in E as (r' & Hin & Hr'). exists r'. split; [right|]; assumption.
  - apply IH in E as (r' & Hin & Hr'). exists r'. split; [right|]; assumption.
  - injection E as ->. exists r. split; [left; reflexivity | assumption].
Qed.

(** The items are bounded by the maxima returned with them. *)
Lemma process_problems_bounded raw items a b c :
  raw <> [] ->
  process_problems raw = Ok (items, a, b, c) ->
  1 <= a /\ 1 <= b /\ 1 <= c /\
  Forall (fun p => id p <= a /\ totalSubmissions p <= b /\ totalAccepted p <= c)
    items.
Proof.
  intros Hne E.
  apply process_problems_loop in E as (m1 & m2 & m3 & E & -> & -> & ->);
    [|assumption].
  apply process_loop_spec in E as (kept & -> & _ & -> & -> & ->). simpl.
  destruct (fold_max_bounds (map id kept) 0) as (_ & Ha & _).
  destruct (fold_max_bounds (map totalSubmissions kept) 0) as (_ & Hb & _).
  destruct (fold_max_bounds (map totalAccepted kept) 0) as (_ & Hc & _).
  split; [lia|]. split; [lia|]. split; [lia|].
  apply List.Forall_forall. intros p Hp.
  pose proof (proj1 (List.Forall_forall _ _) Ha _ (in_map id _ _ Hp)).
  pose proof (proj1 (List.Forall_forall _ _) Hb _
                (in_map totalSubmissions _ _ Hp)).
  pose proof (proj1 (List.Forall_forall _ _) Hc _
                (in_map totalAccepted _ _ Hp)).
  simpl in *. lia.
Qed.

(** X1.  A record that is a dictionary without a 'stat' or a
    'difficulty' (or with a falsy one), or with a truthy 'paid_only',
    is skipped whatever else it holds, without any conversion being
    tried: the result of [process_problems], exception or items and
    maxima, is the one for the input without it, as long as other
    records remain. *)
Theorem filtered_early_skipped (pd : list (string * json)) (l1 l2 : list json) :
  filtered_early pd ->
  process_record (JDict pd) = Ok None /\
  (l1 ++ l2 <> [] ->
   process_problems (l1 ++ JDict pd :: l2) = process_problems (l1 ++ l2)).
Proof.
  intros Hf.
  assert (process_record (JDict pd) = Ok None) as Hr.
  { unfold process_record. simpl.
    destruct Hf as [-> | [-> | ->]]; simpl.
    - reflexivity.
    - rewrite orb_true_r. reflexivity.
    - destruct (_ || _); reflexivity. }
  split; [assumption|]. intros Hne.
  rewrite !process_problems_as_loop.
  destruct (l1 ++ JDict pd :: l2) as [|x l] eqn:E1; [destruct l1; discriminate|].
  destruct (l1 ++ l2) as [|y l'] eqn:E2; [congruence|].
  rewrite <- E1, <- E2, (process_loop_skip _ _ _ Hr). reflexivity.
Qed.

(** X2.  [process_problems] on a concatenation: when it returns on
    both parts, it returns on the whole the items of the first part
    followed by those of the second, with the greater of the two maxima
    in each of the three places. *)
Theorem process_problems_app l1 l2 i1 a1 b1 c1 i2 a2 b2 c2 :
  process_problems l1 = Ok (i1, a1, b1, c1) ->
  process_problems l2 = Ok (i2, a2, b2, c2) ->
  process_problems (l1 ++ l2) =
    Ok (i1 ++ i2, Z.max a1 a2, Z.max b1 b2, Z.max c1 c2).
Proof.
  intros E1 E2. destruct l1 as [|r1 l1].
  { injection E1 as <- <- <- <-. simpl. rewrite E2.
    destruct l2 as [|r2 l2].
    - injection E2 as <- <- <- <-. reflexivity.
    - apply process_problems_loop in E2 as (m1 & m2 & m3 & _ & -> & -> & ->);
        [|discriminate].
      tuple_eq. }
  destruct l2 as [|r2 l2].
  { injection E2 as <- <- <- <-. rewrite !app_nil_r, E1.
    apply process_problems_loop in E1 as (m1 & m2 & m3 & _ & -> & -> & ->);
      [|discriminate].
    tuple_eq. }
  apply process_problems_loop in E1 as (m1 & m2 & m3 & E1 & -> & -> & ->);
    [|discriminate].
  apply process_problems_loop in E2 as (n1 & n2 & n3 & E2 & -> & -> & ->);
    [|discriminate].
  pose proof (process_loop_nonneg _ _ _ _ _ E1) as (? & ? & ?).
  rewrite process_problems_as_loop.
  change ((r1 :: l1) ++ r2 :: l2) with (r1 :: (l1 ++ r2 :: l2)). cbv iota.
  change (r1 :: (l1 ++ r2 :: l2)) with ((r1 :: l1) ++ r2 :: l2).
  rewrite process_loop_app, E1. cbn [mbind result_bind].
  rewrite process_loop_shift by assumption. rewrite E2. simpl.
  tuple_eq.
Qed.

(** X3.  One record that raises aborts the batch: when
    [process_problems] raises on an input, it raises the same exception
    on that input followed by any further records, and returns no
    items. *)
Theorem process_problems_abort l1 l2 e :
  process_problems l1 = Raise e -> process_problems (l1 ++ l2) = Raise e.
Proof.
  intros E. destruct l1 as [|r l1]; [discriminate|].
  rewrite process_problems_as_loop in E. rewrite process_problems_as_loop.
  change ((r :: l1) ++ l2) with (r :: (l1 ++ l2)). cbv iota.
  change (r :: (l1 ++ l2)) with ((r :: l1) ++ l2). rewrite process_loop_app.
  destruct (process_loop (r :: l1) [] 0 0 0) as [[[[items a] b] c]|e'];
    [discriminate|]. injection E as ->. reflexivity.
Qed.

(** X4.  On a non-empty input the maxima returned bound the three
    fields of every item, and each of them is 1 or the field of some
    item. *)
Theorem process_problems_maxima_attained raw items a b c :
  raw <> [] ->
  process_problems raw = Ok (items, a, b, c) ->
  Forall (fun p => id p <= a /\ totalSubmissions p <= b /\ totalAccepted p <= c)
    items /\
  (a = 1 \/ exists p, In p items /\ id p = a) /\
  (b = 1 \/ exists p, In p items /\ totalSubmissions p = b) /\
  (c = 1 \/ exists p, In p items /\ totalAccepted p = c).
Proof.
  intros Hne E. split; [eapply process_problems_bounded; eassumption|].
  apply process_problems_loop in E as (m1 & m2 & m3 & E & -> & -> & ->);
    [|assumption].
  apply process_loop_spec in E as (kept & -> & _ & -> & -> & ->). simpl.
  destruct (fold_max_bounds (map id kept) 0) as (Ha0 & _ & Hai).
  destruct (fold_max_bounds (map totalSubmissions kept) 0) as (Hb0 & _ & Hbi).
  destruct (fold_max_bounds (map totalAccepted kept) 0) as (Hc0 & _ & Hci).
  split; [|split].
  - destruct Hai as [Heq | Hin]; [left; lia|].
    destruct (Z.max_spec 1 (fold_left Z.max (map id kept) 0))
      as [[_ ->] | [_ ->]]; [|auto].
    right. apply in_map_iff in Hin as (p & Hp & Hin). eauto.
  - destruct Hbi as [Heq | Hin]; [left; lia|].
    destruct (Z.max_spec 1 (fold_left Z.max (map totalSubmissions kept) 0))
      as [[_ ->] | [_ ->]]; [|auto].
    right. apply in_map_iff in Hin as (p & Hp & Hin). eauto.
  - destruct Hci as [Heq | Hin]; [left; lia|].
    destruct (Z.max_spec 1 (fold_left Z.max (map totalAccepted kept) 0))
      as [[_ ->] | [_ ->]]; [|auto].
    right. apply in_map_iff in Hin as (p & Hp & Hin). eauto.
Qed.

(** X5.  Every item [process_problems] returns has a non-zero id, a
    slug other than 'N/A', one of the difficulties Easy, Medium and
    Hard, the url https://leetcode.com/problems/<slug>/ and no score
    yet; and there are no more items than records. *)
Theorem process_problems_items raw items a b c :
  process_problems raw = Ok (items, a, b, c) ->
  Forall item_wellformed items /\ (length items <= length raw)%nat.
Proof.
  intros E. destruct raw as [|r0 raw].
  - injection E as <- _ _ _. split; [constructor | simpl; lia].
  - apply process_problems_loop in E as (m1 & m2 & m3 & E & _); [|discriminate].
    split.
    + apply process_loop_inv in E as (kept & -> & Hk). simpl.
      eapply Forall_impl; [exact Hk|]. intros p (r & _ & Hr).
      eapply process_record_wellformed, Hr.
    + apply process_loop_spec in E as (kept & -> & Hlen & _). exact Hlen.
Qed.

(** X6.  The only exceptions that leave [process_problems] are
    AttributeError and OverflowError, raised by one of the records; the
    TypeError and ValueError of the conversions never do. *)
Theorem process_problems_raises_only raw e :
  process_problems raw = Raise e ->
  (e = AttributeError \/ e = OverflowError) /\
  exists r, In r raw /\ process_record r = Raise e.
Proof.
  intros E. rewrite process_problems_as_loop in E.
  destruct raw as [|r0 raw]; [discriminate|].
  destruct (process_loop (r0 :: raw) [] 0 0 0) as [[[[items a] b] c]|e'] eqn:El;
    [discriminate|].
  injection E as ->. apply process_loop_raise in El as (r & Hin & Hr).
  split; [eapply process_record_raise, Hr | eauto].
Qed.

(** X7.  [process_problems] returns on every input whose records are
    dictionaries with 'stat' and 'difficulty' falsy or dictionaries,
    without an infinite float in a numeric field and with a 'total_acs'
    below 2^1023 in absolute value, whatever else the fields hold. *)
Theorem process_problems_returns raw :
  Forall record_shaped raw ->
  exists items a b c, process_problems raw = Ok (items, a, b, c).
Proof.
  intros Hall. rewrite process_problems_as_loop.
  destruct raw as [|r0 raw]; [eauto 6|].
  assert (Forall (fun r => exists o, process_record r = Ok o) (r0 :: raw)) as Hok.
  { eapply Forall_impl; [exact Hall|]. intros r. apply process_record_shaped. }
  destruct (process_loop_returns _ Hok [] 0 0 0) as (items & a & b & c & ->).
  simpl. eauto 6.
Qed.

End NormalizerRecords.

Lemma filtered_early_skipped_witness :
  process_record (H := ascii_builtins) (JDict paid_record) = Ok None /\
  ([] ++ [raw_record (JInt 1) (JStr "two-sum") 1 2 1] <> [] ->
   process_problems (H := ascii_builtins)
     ([] ++ JDict paid_record :: [raw_record (JInt 1) (JStr "two-sum") 1 2 1]) =
   process_problems (H := ascii_builtins)
     ([] ++ [raw_record (JInt 1) (JStr "two-sum") 1 2 1])).
Proof.
  apply (filtered_early_skipped (H := ascii_builtins) paid_record []
           [raw_record (JInt 1) (JStr "two-sum") 1 2 1]).
  right. right. reflexivity.
Defined.

Lemma process_problems_app_witness :
  process_problems (H := ascii_builtins)
    ([raw_record (JInt 1) (JStr "two-sum") 1 2 1]
     ++ [raw_record (JInt 1) (JStr "two-sum") 3 4 1]) =
  Ok ([two_sum_item 1 2 (1 # 2)] ++ [two_sum_item 3 4 (3 # 4)],
      Z.max 1 1, Z.max 2 4, Z.max 1 3).
Proof.
  apply (process_problems_app (H := ascii_builtins)
           [raw_record (JInt 1) (JStr "two-sum") 1 2 1]
           [raw_record (JInt 1) (JStr "two-sum") 3 4 1]); reflexivity.
Defined.

Lemma process_problems_abort_witness :
  process_problems (H := ascii_builtins)
    ([JInt 5] ++ [raw_record (JInt 1) (JStr "two-sum") 1 2 1]) =
  Raise AttributeError.
Proof.
  apply (process_problems_abort (H := ascii_builtins) [JInt 5]
           [raw_record (JInt 1) (JStr "two-sum") 1 2 1]).
  reflexivity.
Defined.

Lemma process_problems_maxima_attained_witness :
  Forall (fun p => id p <= 1 /\ totalSubmissions p <= 2 /\ totalAccepted p <= 1)
    [two_sum_item 1 2 (1 # 2)] /\
  (1 = 1 \/ exists p, In p [two_sum_item 1 2 (1 # 2)] /\ id p = 1) /\
  (2 = 1 \/ exists p, In p [two_sum_item 1 2 (1 # 2)] /\ totalSubmissions p = 2) /\
  (1 = 1 \/ exists p, In p [two_sum_item 1 2 (1 # 2)] /\ totalAccepted p = 1).
Proof.
  apply (process_problems_maxima_attained (H := ascii_builtins)
           [raw_record (JInt 1) (JStr "two-sum") 1 2 1]).
  - discriminate.
  - reflexivity.
Defined.

Lemma process_problems_items_witness :
  Forall (item_wellformed (H := ascii_builtins)) [two_sum_item 1 2 (1 # 2)] /\
  (length [two_sum_item 1 2 (1 # 2)]
   <= length [raw_record (JInt 1) (JStr "two-sum") 1 2 1])%nat.
Proof.
  apply (process_problems_items (H := ascii_builtins)
           [raw_record (JInt 1) (JStr "two-sum") 1 2 1] _ 1 2 1).
  reflexivity.
Defined.

Lemma process_problems_raises_only_witness :
  (AttributeError = AttributeError \/ AttributeError = OverflowError) /\
  exists r, In r [JInt 5] /\
            process_record (H := ascii_builtins) r = Raise AttributeError.
Proof.
  apply (process_problems_raises_only (H := ascii_builtins) [JInt 5]).
  reflexivity.
Defined.

Lemma process_problems_returns_witness :
  exists items a b c,
    process_problems (H := ascii_builtins)
      [raw_record (JInt 1) (JStr "two-sum") 1 2 1] = Ok (items, a, b, c).
Proof.
  apply (process_problems_returns (H := ascii_builtins)).
  constructor; [|constructor].
  eexists. split; [reflexivity|].
  split; [right; eexists; reflexivity|].
  split; [right; eexists; reflexivity|].
  split.
  - intros st Hst. vm_compute in Hst. injection Hst as <-.
    repeat split; try (intros neg; discriminate).
    intros n Hn. injection Hn as <-. reflexivity.
  - intros d Hd. vm_compute in Hd. injection Hd as <-.
    intros neg. discriminate.
Defined.

(** ** The score, once more *)

Local Open Scope R_scope.

(** X8.  Scoring an item a second time with the same statistics
    changes nothing: the score does not depend on the score already
    stored, and the heap after two calls is the heap after one.  Where
    the first call raises there is no second one. *)
Theorem score_twice (h : heap) (a : nat) (max_frontend_id : Z)
    (max_submissions_log max_accepted_log : R) :
  (calculate_true_difficulty_score h a max_frontend_id
     max_submissions_log max_accepted_log ≫=
   fun '(h', r) =>
     calculate_true_difficulty_score h' r max_frontend_id
       max_submissions_log max_accepted_log) =
  calculate_true_difficulty_score h a max_frontend_id
    max_submissions_log max_accepted_log.
Proof.
  unfold heap in *. destruct (h !! a) as [p|] eqn:Hp.
  - rewrite (calculate_value _ _ _ _ _ _ Hp).
    destruct (score_overflows p _ _ _) eqn:E; [reflexivity|].
    cbn [mbind result_bind].
    erewrite calculate_value
      by (apply list_lookup_insert_eq; eapply lookup_lt_Some, Hp).
    change (score_overflows (set_trueDifficultyScore p _) max_frontend_id
              max_submissions_log max_accepted_log)
      with (score_overflows p max_frontend_id max_submissions_log
              max_accepted_log).
    rewrite E. unfold heap in *. rewrite list_insert_insert_eq. reflexivity.
  - unfold calculate_true_difficulty_score, heap. rewrite Hp.
    cbn [mbind result_bind]. rewrite Hp. reflexivity.
Qed.

Lemma round_half_even_IZR n : round_half_even (IZR n) = n.
Proof. apply round_half_even_near. lra. Qed.

Lemma round2_IZR n : round2 (IZR n) = IZR n.
Proof.
  unfold round2. rewrite <- mult_IZR, round_half_even_IZR, mult_IZR. lra.
Qed.

Lemma log1p_nonneg n : (0 <= n)%Z -> 0 <= log1p (IZR n).
Proof.
  intros Hn. replace 0 with (log1p (IZR 0)).
  - apply log1p_mono; lia.
  - unfold log1p. rewrite Rplus_0_r. apply ln_1.
Qed.

Lemma ratio_unit x y : 0 <= x <= y -> 0 < y -> 0 <= x / y <= 1.
Proof.
  intros [Hx Hxy] Hy. split.
  - apply Rmult_le_pos; [assumption|]. left. apply Rinv_0_lt_compat. assumption.
  - apply (Rmult_le_reg_r y); [assumption|].
    unfold Rdiv. rewrite Rmult_assoc, Rinv_l by lra. lra.
Qed.

Lemma max_log_val_pos m :
  (1 <= m)%Z -> max_log_val m = log1p (IZR m) /\ 0 < max_log_val m.
Proof.
  intros Hm. unfold max_log_val.
  assert ((0 <? m)%Z = true) as -> by (apply Z.ltb_lt; lia).
  split; [reflexivity|]. apply log1p_pos. lia.
Qed.

(** The range of the sum: the base score, up to 300 for the rate, up
    to 150 for the accepted count, down to -80 for the submissions and
    up to 70 for the id. *)
Lemma raw_score_range (p : problem) (max_id max_subs max_acs : Z) :
  (0 <= acceptanceRate p <= 1)%Q ->
  (0 <= totalAccepted p <= max_acs)%Z ->
  (0 <= totalSubmissions p <= max_subs)%Z ->
  (0 <= id p <= max_id)%Z ->
  (1 <= max_id)%Z -> (1 <= max_subs)%Z -> (1 <= max_acs)%Z ->
  IZR (base_score (difficulty p) - 80) <=
    raw_score p max_id (max_log_val max_subs) (max_log_val max_acs)
    <= IZR (base_score (difficulty p) + 520).
Proof.
  intros [Hr0 Hr1] [Ha0 Ha1] [Hs0 Hs1] [Hi0 Hi1] Hmi Hms Hma.
  destruct (max_log_val_pos _ Hms) as [Es Hs].
  destruct (max_log_val_pos _ Hma) as [Ea Ha].
  apply Qle_Rle in Hr0, Hr1.
  rewrite RMicromega.Q2R_0 in Hr0. rewrite RMicromega.Q2R_1 in Hr1.
  unfold raw_score, add_newness, add_popularity, add_low_accepted,
    add_acceptance, add_base.
  autorewrite with weights. rewrite !Rltb_true by assumption.
  assert ((0 <? max_id)%Z = true) as -> by (apply Z.ltb_lt; lia).
  assert ((0 <=? totalAccepted p)%Z = true) as -> by (apply Z.leb_le; lia).
  cbn [andb]. rewrite Es, Ea.
  assert (0 <= log1p (IZR (totalAccepted p)) / log1p (IZR max_acs) <= 1) as HL.
  { apply ratio_unit; [|rewrite <- Ea; assumption].
    split; [apply log1p_nonneg | apply log1p_mono]; lia. }
  assert (0 <= IZR (id p) / IZR max_id <= 1) as HN.
  { apply ratio_unit; [split; apply IZR_le; lia | apply IZR_lt; lia]. }
  rewrite minus_IZR, plus_IZR.
  destruct (0 <? totalSubmissions p)%Z eqn:Epos; cbn [andb]; [|lra].
  assert (0 <= log1p (IZR (totalSubmissions p)) / log1p (IZR max_subs) <= 1)
    as HP.
  { apply ratio_unit; [|rewrite <- Es; assumption].
    split; [apply log1p_nonneg | apply log1p_mono]; lia. }
  lra.
Qed.

(** X10.  For an item with a rate in [0, 1], counts and id between 0
    and the maxima, and maxima of at least 1, scored as [main] scores
    it, the score lies between the base score of its difficulty less 80
    and that base score plus 520. *)
Theorem score_range (p : problem) (max_id max_subs max_acs : Z) :
  (0 <= acceptanceRate p <= 1)%Q ->
  (0 <= totalAccepted p <= max_acs)%Z ->
  (0 <= totalSubmissions p <= max_subs)%Z ->
  (0 <= id p <= max_id)%Z ->
  (1 <= max_id)%Z -> (1 <= max_subs)%Z -> (1 <= max_acs)%Z ->
  IZR (base_score (difficulty p)) - 80 <=
    true_difficulty_score p max_id (max_log_val max_subs) (max_log_val max_acs)
    <= IZR (base_score (difficulty p)) + 520.
Proof.
  intros Hr Ha Hs Hi Hmi Hms Hma.
  destruct (raw_score_range p max_id max_subs max_acs Hr Ha Hs Hi Hmi Hms Hma)
    as [Hlo Hhi].
  apply round2_mono in Hlo, Hhi. rewrite round2_IZR in Hlo, Hhi.
  rewrite minus_IZR in Hlo. rewrite plus_IZR in Hhi.
  unfold true_difficulty_score. lra.
Qed.

Lemma score_range_witness :
  IZR (base_score (difficulty (sample_problem 2900))) - 80 <=
    true_difficulty_score (sample_problem 2900) 3000
      (max_log_val 2000000) (max_log_val 1000000)
    <= IZR (base_score (difficulty (sample_problem 2900))) + 520.
Proof.
  apply (score_range (sample_problem 2900) 3000 2000000 1000000);
    simpl; try lia.
  split; discriminate.
Defined.

Section PipelineScores.
Context `{Builtins}.

(** X11.  Every item [process_problems] returns that has a positive id
    and counts with 0 <= totalAccepted <= totalSubmissions gets, from
    the maxima returned with it, a score between the base score of its
    difficulty less 80 and that base score plus 520. *)
Theorem pipeline_score_range raw items max_id max_subs max_acs :
  process_problems raw = Ok (items, max_id, max_subs, max_acs) ->
  Forall (fun p =>
            (0 < id p)%Z ->
            (0 <= totalAccepted p <= totalSubmissions p)%Z ->
            IZR (base_score (difficulty p)) - 80 <=
              true_difficulty_score p max_id (max_log_val max_subs)
                (max_log_val max_acs)
              <= IZR (base_score (difficulty p)) + 520) items.
Proof.
  intros E. destruct raw as [|r0 raw].
  { injection E as <- _ _ _. constructor. }
  assert (r0 :: raw <> []) as Hne by discriminate.
  destruct (process_problems_bounded _ _ _ _ _ Hne E)
    as (Hmi & Hms & Hma & Hb).
  apply process_problems_loop in E as (m1 & m2 & m3 & E & _); [|discriminate].
  apply process_loop_inv in E as (kept & -> & Hk). simpl in *.
  apply List.Forall_forall. intros p Hp Hid Hcounts.
  destruct (proj1 (List.Forall_forall _ _) Hb _ Hp) as (Hi & Hs & Ha).
  destruct (proj1 (List.Forall_forall _ _) Hk _ Hp) as (r & _ & Hr).
  apply process_record_rate in Hr as (_ & _ & Hrate).
  destruct (raw_score_range p max_id max_subs max_acs) as [Hlo Hhi];
    try lia; [apply Hrate; lia|].
  apply round2_mono in Hlo, Hhi. rewrite round2_IZR in Hlo, Hhi.
  rewrite minus_IZR in Hlo. rewrite plus_IZR in Hhi.
  unfold true_difficulty_score. lra.
Qed.

End PipelineScores.

Lemma pipeline_score_range_witness :
  Forall (fun p =>
            (0 < id p)%Z ->
            (0 <= totalAccepted p <= totalSubmissions p)%Z ->
            IZR (base_score (difficulty p)) - 80 <=
              true_difficulty_score p 1 (max_log_val 2) (max_log_val 1)
              <= IZR (base_score (difficulty p)) + 520)
    [two_sum_item 1 2 (1 # 2)].
Proof.
  apply (pipeline_score_range (H := ascii_builtins)
           [raw_record (JInt 1) (JStr "two-sum") 1 2 1]).
  reflexivity.
Defined.

(** ** The scoring loop and the ranking *)

Section ScoreAll.
Variables (max_id : Z) (msl mal : R).

(** One call that returns, seen from any reference. *)
Lemma calculate_lookup (h h' : heap) (a r b : nat) :
  calculate_true_difficulty_score h a max_id msl mal = Ok (h', r) ->
  r = a /\ length h' = length h /\
  h' !! b =
    if decide (b = a) then scored_with max_id msl mal <$> h !! a else h !! b.
Proof.
  unfold heap in *. destruct (h !! a) as [p|] eqn:Hp.
  - rewrite (calculate_value _ _ _ _ _ _ Hp).
    destruct (score_overflows p _ _ _); [discriminate|].
    intros E. injection E as <- <-. split; [reflexivity|].
    split; [apply length_insert|].
    destruct (decide (b = a)) as [->|Hne].
    + rewrite list_lookup_insert_eq by (eapply lookup_lt_Some, Hp). reflexivity.
    + rewrite list_lookup_insert_ne by congruence. reflexivity.
  - unfold calculate_true_difficulty_score, heap. rewrite Hp.
    intros E. injection E as <- <-. split; [reflexivity|].
    split; [reflexivity|].
    destruct (decide (b = a)) as [->|Hne]; [rewrite Hp|]; reflexivity.
Qed.

(** One call that raises. *)
Lemma calculate_raise (h : heap) (a : nat) (e : exn) :
  calculate_true_difficulty_score h a max_id msl mal = Raise e ->
  e = OverflowError /\
  exists p, h !! a = Some p /\ score_overflows p max_id msl mal = true.
Proof.
  unfold heap in *. destruct (h !! a) as [p|] eqn:Hp.
  - rewrite (calculate_value _ _ _ _ _ _ Hp).
    destruct (score_overflows p _ _ _) eqn:E; [|discriminate].
    intros [= <-]. eauto.
  - unfold calculate_true_difficulty_score, heap. rewrite Hp. discriminate.
Qed.

(** The objects on which a conversion overflows are the same before
    and after a call that returns. *)
Lemma calculate_overflows (h h' : heap) (a r b : nat) (v : bool) :
  calculate_true_difficulty_score h a max_id msl mal = Ok (h', r) ->
  (exists q, h' !! b = Some q /\ score_overflows q max_id msl mal = v) <->
  (exists p, h !! b = Some p /\ score_overflows p max_id msl mal = v).
Proof.
  intros E. destruct (calculate_lookup h h' a r b E) as (_ & _ & Hb).
  rewrite Hb. destruct (decide (b = a)) as [->|Hne]; [|reflexivity].
  destruct (h !! a) as [p|]; cbn [fmap option_fmap option_map].
  - split; intros (q & [= <-] & Hq); eauto.
  - split; intros (q & Hq & _); discriminate.
Qed.

(** The loop from any list of references already gathered. *)
Lemma score_all_aux (problems : list nat) :
  forall (h : heap) (scored : list nat),
    match score_all h problems scored max_id msl mal with
    | Ok (h', refs) =>
        refs = scored ++ problems /\
        length h' = length h /\
        (forall a : nat,
           h' !! a =
           if decide (a ∈ problems) then scored_with max_id msl mal <$> h !! a
           else h !! a) /\
        Forall (fun a => forall p, h !! a = Some p ->
                  score_overflows p max_id msl mal = false) problems
    | Raise e =>
        e = OverflowError /\
        Exists (fun a => exists p, h !! a = Some p /\
                  score_overflows p max_id msl mal = true) problems
    end.
Proof.
  induction problems as [|a problems IH]; intros h scored.
  - simpl. rewrite app_nil_r. auto.
  - cbn [score_all].
    destruct (calculate_true_difficulty_score h a max_id msl mal)
      as [[h1 r1]|e] eqn:E1; cbn [mbind result_bind].
    2: { apply calculate_raise in E1 as [-> Hp]. split; [reflexivity|].
         apply Exists_cons_hd. exact Hp. }
    pose proof (fun b => calculate_lookup h h1 a r1 b E1) as Hc.
    destruct (Hc a) as (-> & Hlen & _).
    pose proof (fun b v => calculate_overflows h h1 a a b v E1) as Hov.
    specialize (IH h1 (scored ++ [a])).
    destruct (score_all h1 problems (scored ++ [a]) max_id msl mal)
      as [[h' refs]|e].
    + destruct IH as (Hrefs & Hl & Hlook & Hall).
      split; [rewrite Hrefs, <- app_assoc; reflexivity|].
      split; [congruence|]. split.
      * intros b. rewrite Hlook. destruct (Hc b) as (_ & _ & ->).
        destruct (Hc a) as (_ & _ & Ha). rewrite decide_True in Ha by reflexivity.
        destruct (decide (b ∈ problems)) as [Hin|Hnin];
          destruct (decide (b = a)) as [->|Hne].
        -- rewrite decide_True by (apply elem_of_cons; auto).
           destruct (h !! a); reflexivity.
        -- rewrite decide_True by (apply elem_of_cons; auto). reflexivity.
        -- rewrite decide_True by (apply elem_of_cons; auto). reflexivity.
        -- rewrite decide_False; [reflexivity|].
           intros [Heq|Hin]%elem_of_cons; congruence.
      * constructor.
        -- intros p Hp. rewrite (calculate_value _ _ _ _ _ _ Hp) in E1.
           destruct (score_overflows p _ _ _); [discriminate | reflexivity].
        -- eapply Forall_impl; [exact Hall|]. intros b Hb p Hp.
           destruct (score_overflows p max_id msl mal) eqn:Ep; [|reflexivity].
           destruct (proj2 (Hov b true)) as (q & Hq & Eq); [eauto|].
           rewrite (Hb q Hq) in Eq. discriminate.
    + destruct IH as (-> & Hex). split; [reflexivity|].
      apply Exists_cons_tl. eapply Exists_impl; [exact Hex|].
      intros b Hb. apply (Hov b true), Hb.
Qed.

(** X12.  The loop of lines 227 to 231, on any list of references
    (repeated ones included).  When no conversion overflows on the
    objects the list refers to, the loop returns: [scored_problems]
    ends as the list it was given, in its order; every object the list
    refers to keeps its eight fields and has under
    'trueDifficultyScore' the score of these fields; every other object
    of the heap is untouched, and no object is added.  The loop raises
    nothing but OverflowError, and only when a conversion overflows on
    one of these objects. *)
Theorem score_all_effect (h : heap) (problems : list nat) :
  (Forall (fun a => forall p, h !! a = Some p ->
             score_overflows p max_id msl mal = false) problems ->
   exists h',
     score_all h problems [] max_id msl mal = Ok (h', problems) /\
     length h' = length h /\
     (forall (a : nat) (p : problem),
        a ∈ problems -> h !! a = Some p ->
        exists p',
          h' !! a = Some p' /\ same_item p p' /\
          trueDifficultyScore p' =
            Some (true_difficulty_score p max_id msl mal)) /\
     (forall a : nat, a ∉ problems -> h' !! a = h !! a)) /\
  (forall e : exn,
     score_all h problems [] max_id msl mal = Raise e ->
     e = OverflowError /\
     Exists (fun a => exists p, h !! a = Some p /\
               score_overflows p max_id msl mal = true) problems).
Proof.
  pose proof (score_all_aux problems h []) as Haux.
  destruct (score_all h problems [] max_id msl mal) as [[h' refs]|e0].
  - destruct Haux as (-> & Hlen & Hlook & _). split; [|discriminate].
    intros _. exists h'. split; [reflexivity|]. split; [exact Hlen|]. split.
    + intros a p Hin Hp. specialize (Hlook a).
      rewrite decide_True, Hp in Hlook by exact Hin.
      eexists. split; [exact Hlook|]. split; [|reflexivity].
      repeat split.
    + intros a Hnin. specialize (Hlook a).
      rewrite decide_False in Hlook by exact Hnin. exact Hlook.
  - destruct Haux as (-> & Hex). split.
    + intros Hall. exfalso. apply Exists_exists in Hex as (a & Hin & p & Hp & Ep).
      rewrite Forall_forall in Hall. rewrite (Hall a Hin p Hp) in Ep.
      discriminate.
    + intros e [= <-]. auto.
Qed.

Lemma omap_lookup_seq (l2 : list problem) : forall l1 : list problem,
  omap (M := list) (fun a : nat => (l1 ++ l2) !! a)
    (seq (length l1) (length l2)) = l2.
Proof.
  induction l2 as [|x l2 IH]; intros l1; [reflexivity|].
  cbn [length seq omap list_omap].
  rewrite lookup_app_r by lia. rewrite Nat.sub_diag. cbn.
  f_equal. specialize (IH (l1 ++ [x])).
  rewrite <- app_assoc, length_app in IH. cbn in IH.
  rewrite Nat.add_1_r in IH. exact IH.
Qed.

(** The loop as [main] runs it, over all the objects: each is scored,
    unless a conversion overflows on one of them. *)
Lemma score_all_whole (h : heap) :
  score_all h (seq 0 (length h)) [] max_id msl mal =
  if existsb (fun p => score_overflows p max_id msl mal) h
  then Raise OverflowError
  else Ok (scored_with max_id msl mal <$> h, seq 0 (length h)).
Proof.
  pose proof (score_all_aux (seq 0 (length h)) h []) as Haux.
  destruct (score_all h (seq 0 (length h)) [] max_id msl mal)
    as [[h' refs]|e].
  - destruct Haux as (Hrefs & Hlen & Hlook & Hall).
    destruct (existsb _ h) eqn:Ex.
    + exfalso. apply existsb_exists in Ex as (p & Hin & Ep).
      apply list_elem_of_In, list_elem_of_lookup in Hin as [a Ha].
      rewrite List.Forall_forall in Hall.
      rewrite (Hall a) in Ep; [discriminate| |exact Ha].
      apply in_seq. apply lookup_lt_Some in Ha. lia.
    + do 2 f_equal; [|exact Hrefs].
      unfold heap in *. apply list_eq. intros a.
      rewrite Hlook, list_lookup_fmap.
      destruct (decide (a ∈ seq 0 (length h))) as [Hin|Hnin]; [reflexivity|].
      rewrite elem_of_seq in Hnin. rewrite (lookup_ge_None_2 h a) by lia.
      reflexivity.
  - destruct Haux as (-> & Hex).
    apply Exists_exists in Hex as (a & _ & p & Hp & Ep).
    assert (existsb (fun p => score_overflows p max_id msl mal) h = true) as ->.
    { apply existsb_exists. exists p. split; [|exact Ep].
      apply list_elem_of_In, list_elem_of_lookup. eauto. }
    reflexivity.
Qed.

End ScoreAll.

Lemma score_all_effect_witness :
  exists h',
    score_all [sample_problem 1; sample_problem 2] [1; 0; 1]%nat [] 3000 1 1 =
      Ok (h', [1; 0; 1]%nat) /\
    length h' = length [sample_problem 1; sample_problem 2] /\
    (forall (a : nat) (p : problem),
       a ∈ [1; 0; 1]%nat ->
       [sample_problem 1; sample_problem 2] !! a = Some p ->
       exists p',
         h' !! a = Some p' /\ same_item p p' /\
         trueDifficultyScore p' = Some (true_difficulty_score p 3000 1 1)) /\
    (forall a : nat,
       a ∉ [1; 0; 1]%nat ->
       h' !! a = [sample_problem 1; sample_problem 2] !! a).
Proof.
  apply (proj1 (score_all_effect 3000 1 1
                  [sample_problem 1; sample_problem 2] [1; 0; 1]%nat)).
  repeat constructor; intros p [= <-]; apply in_range_no_overflow;
    repeat split; reflexivity.
Defined.

Section SortMap.
Context {A B : Type} (keyA : A -> R) (keyB : B -> R) (g : A -> option B).

(** Sorting references and then following them is sorting what they
    refer to, when the keys agree. *)
Lemma insert_desc_omap x b l :
  g x = Some b -> keyB b = keyA x ->
  Forall (fun y => exists c, g y = Some c /\ keyB c = keyA y) l ->
  omap g (insert_desc keyA x l) = insert_desc keyB b (omap g l).
Proof.
  intros Hx Hk. induction 1 as [|y l (c & Hy & Hc) _ IH].
  - cbn. rewrite Hx. reflexivity.
  - cbn [insert_desc omap list_omap]. rewrite Hy. cbn [insert_desc].
    rewrite Hc, Hk. destruct (Rltb (keyA x) (keyA y)); cbn [omap list_omap].
    + rewrite Hy. f_equal. exact IH.
    + rewrite Hx, Hy. reflexivity.
Qed.

Lemma sorted_desc_omap l :
  Forall (fun y => exists c, g y = Some c /\ keyB c = keyA y) l ->
  omap g (sorted_desc keyA l) = sorted_desc keyB (omap g l).
Proof.
  induction 1 as [|x l (b & Hx & Hk) Hl IH]; [reflexivity|].
  cbn [sorted_desc omap list_omap]. rewrite Hx. cbn [sorted_desc].
  rewrite (insert_desc_omap x b (sorted_desc keyA l) Hx Hk).
  - f_equal. exact IH.
  - rewrite List.Forall_forall in *. intros y Hy. apply Hl.
    eapply Permutation_in; [apply sorted_desc_perm | exact Hy].
Qed.

End SortMap.

Lemma stored_score_item (h : heap) (a : nat) (p : problem) :
  h !! a = Some p -> stored_score h a = item_score p.
Proof.
  intros Hp. unfold stored_score, item_score, heap in *. rewrite Hp.
  destruct (trueDifficultyScore p); reflexivity.
Qed.

Lemma max_log_value m :
  max_log m =
  if (0 <? m)%Z && too_large m then Raise OverflowError
  else Ok (max_log_val m).
Proof.
  unfold max_log, max_log_val. destruct (0 <? m)%Z eqn:E; [|reflexivity].
  apply Z.ltb_lt in E. rewrite py_log1p_value by lia. reflexivity.
Qed.

Section Rank.
Context `{Builtins}.

(** Lines 207 to 234 without the heap: the items of
    [process_problems], each with the score the logarithms of the
    returned maxima give it, sorted; OverflowError when a maximum or an
    item is out of the range of a float. *)
Lemma rank_value (raw_problems_list : json) :
  rank raw_problems_list =
  (_ ← py_len raw_problems_list;
   '(processed, max_id, max_subs, max_acs) ←
     process_problems (py_iter raw_problems_list);
   match processed with
   | [] => Ok None
   | _ =>
       msl ← max_log max_subs;
       mal ← max_log max_acs;
       if existsb (fun p => score_overflows p max_id msl mal) processed
       then Raise OverflowError
       else Ok (Some (sorted_desc item_score
                        (map (scored_with max_id msl mal) processed)))
   end).
Proof.
  unfold rank. destruct (py_len raw_problems_list) as [n|e]; [|reflexivity].
  cbn [mbind result_bind].
  destruct (process_problems _) as [[[[processed mi] ms] ma]|e]; [|reflexivity].
  cbn [mbind result_bind]. destruct processed as [|p0 processed]; [reflexivity|].
  destruct (max_log ms) as [msl|e]; [|reflexivity]. cbn [mbind result_bind].
  destruct (max_log ma) as [mal|e]; [|reflexivity]. cbn [mbind result_bind].
  set (h := p0 :: processed).
  rewrite (score_all_whole mi msl mal h).
  destruct (existsb _ h); [reflexivity|]. cbn [mbind result_bind].
  set (h' := scored_with mi msl mal <$> h).
  assert (length h' = length h) as Hlen by apply length_fmap.
  assert (Forall (fun a => exists c, h' !! a = Some c /\
                                     item_score c = stored_score h' a)
            (seq 0 (length h))) as Hall.
  { apply List.Forall_forall. intros a Ha. apply in_seq in Ha.
    destruct (lookup_lt_is_Some_2 h' a) as [c Hc]; [lia|].
    exists c. split; [assumption|]. symmetry. apply stored_score_item, Hc. }
  unfold sorted_problems. rewrite keyed_scores.
  2: { eapply Forall_impl; [exact Hall|]. intros a (c & Hc & _).
       exists c. pose proof Hc as Hq. unfold h' in Hq.
       rewrite list_lookup_fmap in Hq.
       destruct (h !! a) as [q|]; [|discriminate]. injection Hq as <-.
       eexists. split; [exact Hc | reflexivity]. }
  cbn [mbind result_bind]. rewrite sorted_desc_keyed.
  do 2 f_equal. unfold deref.
  etrans; [exact (sorted_desc_omap (stored_score h') item_score _ _ Hall)|].
  f_equal. rewrite <- Hlen. exact (omap_lookup_seq h' []).
Qed.


End Rank.

(** Without a cache file [main] loads, fetches, saves and ranks the one
    item of the answer. *)
Example main_run :
  exists s,
    outcome (main (H := ascii_builtins) no_cache_world) =
      Ok (Some [set_trueDifficultyScore (two_sum_item 1 2 (1 # 2)) s]) /\
    events (main (H := ascii_builtins) no_cache_world) =
      [CacheLoad; Fetch; CacheSave].
Proof.
  eexists. split; [|reflexivity].
  change (outcome (main (H := ascii_builtins) no_cache_world))
    with (rank (H := ascii_builtins) answer_records).
  rewrite rank_value.
  assert (process_problems (H := ascii_builtins) (py_iter answer_records) =
          Ok ([two_sum_item 1 2 (1 # 2)], 1, 2, 1)%Z) as -> by reflexivity.
  cbn [py_len answer_records mbind result_bind]. rewrite !max_log_value.
  change ((0 <? 2)%Z && too_large 2) with false.
  change ((0 <? 1)%Z && too_large 1) with false.
  cbn [mbind result_bind existsb].
  rewrite in_range_no_overflow by (repeat split; reflexivity).
  reflexivity.
Qed.

(** ** The cache and the run *)

Local Open Scope Z_scope.

Lemma Qltb_lt x y : Qltb x y = true <-> (x < y)%Q.
Proof.
  unfold Qltb. rewrite negb_true_iff. split.
  - intros E. apply Qnot_le_lt. intros Hle. apply Qle_bool_iff in Hle.
    congruence.
  - intros Hlt. destruct (Qle_bool y x) eqn:E; [|reflexivity].
    apply Qle_bool_iff in E. exfalso. apply (Qlt_not_le _ _ Hlt E).
Qed.

(** A day is 86400 seconds. *)
Lemma cache_fresh_lt f now :
  cache_fresh f now = true <-> (now - mtime f < 86400)%Q.
Proof. unfold cache_fresh. cbv zeta. apply (Qltb_lt _ expiry_seconds). Qed.

(** X14.  [load_problems_from_cache] returns data (anything but None)
    only from a file that holds exactly that document, can be read and
    was modified less than 86400 seconds before the call. *)
Theorem load_returns_fresh_document (fs0 : filesystem) (now : Q) (v : json) :
  load_problems_from_cache fs0 now = Ok v ->
  v <> JNull ->
  exists f,
    entry fs0 = Some f /\ body f = Document v /\ readable f = true /\
    (now - mtime f < 86400)%Q.
Proof.
  unfold load_problems_from_cache. intros E Hv.
  destruct (entry fs0) as [f|]; [|congruence].
  destruct (cache_fresh f now) eqn:Ef; [|congruence].
  destruct (readable f) eqn:Er; [|discriminate].
  destruct (body f) as [v'| |] eqn:Eb; try discriminate. injection E as ->.
  exists f. repeat split; auto.
  apply cache_fresh_lt, Ef.
Qed.

Lemma load_returns_fresh_document_witness :
  exists f,
    entry (fs fresh_cache_world) = Some f /\ body f = Document answer_records /\
    readable f = true /\ (60 - mtime f < 86400)%Q.
Proof.
  apply (load_returns_fresh_document (fs fresh_cache_world) 60 answer_records).
  - reflexivity.
  - discriminate.
Defined.

(** X15.  A cache file modified 86400 seconds ago or earlier is a miss,
    whatever it holds and whether or not it can be read: the file is
    not opened. *)
Theorem load_expired_is_miss (fs0 : filesystem) (now : Q) (f : cache_file) :
  entry fs0 = Some f ->
  (86400 <= now - mtime f)%Q ->
  load_problems_from_cache fs0 now = Ok JNull.
Proof.
  intros Hf Hage. unfold load_problems_from_cache. rewrite Hf.
  destruct (cache_fresh f now) eqn:Ef; [|reflexivity].
  apply cache_fresh_lt in Ef. exfalso. apply (Qlt_not_le _ _ Ef Hage).
Qed.

Lemma load_expired_is_miss_witness :
  load_problems_from_cache (fs unreadable_cache_world) 86400 = Ok JNull.
Proof.
  apply (load_expired_is_miss (fs unreadable_cache_world) 86400
           unreadable_cache_file).
  - reflexivity.
  - discriminate.
Defined.

Section MainFacts.
Context `{Builtins}.

(** X17.  With a cache file that can be read, was modified less than
    86400 seconds ago and holds a truthy document, [main] makes no
    request and leaves the file as it is, and its outcome is the
    ranking of the cached document, whatever the API would answer. *)
Theorem main_cache_hit (w : world) (f : cache_file) (v : json) :
  entry (fs w) = Some f ->
  (now w - mtime f < 86400)%Q ->
  readable f = true ->
  body f = Document v ->
  truthy v = true ->
  main w = {| final_fs := fs w; events := [CacheLoad]; outcome := rank v |}.
Proof.
  intros Hf Hfresh Hr Hb Hv. apply cache_fresh_lt in Hfresh.
  unfold main, load_problems_from_cache.
  rewrite Hf, Hfresh, Hr, Hb. simpl. rewrite Hv. reflexivity.
Qed.

Lemma main_miss_saved (w : world) (fetched : json) (n : nat) :
  load_problems_from_cache (fs w) (now w) = Ok JNull ->
  fetch_problems_from_api_rest (response w) = Ok fetched ->
  truthy fetched = true ->
  py_len fetched = Ok n ->
  can_open_w (fs w) = true ->
  main w =
  {| final_fs := cache_dump_close fetched (now w) (cache_open_w (now w) (fs w));
     events := [CacheLoad; Fetch; CacheSave];
     outcome := rank fetched |}.
Proof.
  intros Hl Hfetch Ht Hlen Hw. unfold main. rewrite Hl. simpl.
  rewrite Hfetch, Ht.
  unfold save_problems_to_cache. rewrite Hlen, Hw. reflexivity.
Qed.

(** X18.  Two runs in a row.  When the first run finds no usable cache,
    fetches and saves, a second run started less than 86400 seconds
    later on the file system the first one left makes no request, has
    the outcome of the first run and leaves the file as it is, whatever
    the API would answer the second time. *)
Theorem main_round_trip (w : world) (fetched : json) (n : nat)
    (later : Q) (r : http_response) :
  cache_absent_or_expired (fs w) (now w) ->
  fetch_problems_from_api_rest (response w) = Ok fetched ->
  truthy fetched = true ->
  py_len fetched = Ok n ->
  can_open_w (fs w) = true ->
  cache_readable (fs w) = true ->
  (later - now w < 86400)%Q ->
  let first := main w in
  let second := main {| fs := final_fs first; now := later; response := r |} in
  events first = [CacheLoad; Fetch; CacheSave] /\
  events second = [CacheLoad] /\
  outcome second = outcome first /\
  final_fs second = final_fs first.
Proof.
  intros Hmiss Hfetch Ht Hlen Hw Hr Hlater first second.
  assert (first = {| final_fs := cache_dump_close fetched (now w)
                                   (cache_open_w (now w) (fs w));
                     events := [CacheLoad; Fetch; CacheSave];
                     outcome := rank fetched |}) as E1.
  { apply (main_miss_saved w fetched n); auto. apply load_miss, Hmiss. }
  assert (second = {| final_fs := final_fs first; events := [CacheLoad];
                      outcome := rank fetched |}) as E2.
  { unfold second. rewrite E1. cbn [final_fs].
    unfold main, load_problems_from_cache.
    cbn [fs now entry cache_dump_close readable body].
    rewrite (proj2 (cache_fresh_lt _ later)) by exact Hlater.
    change (cache_readable (cache_open_w (now w) (fs w)))
      with (cache_readable (fs w)).
    rewrite Hr. cbn [json_load]. rewrite Ht. reflexivity. }
  rewrite E2, E1. auto.
Qed.

(** X19.  What a run does to the cache file: nothing, or, after a fetch
    that returned truthy data, it leaves exactly that data in it with
    the time of the run, and ranks that data. *)
Theorem main_cache_effect (w : world) :
  final_fs (main w) = fs w \/
  exists fetched,
    fetch_problems_from_api_rest (response w) = Ok fetched /\
    truthy fetched = true /\
    events (main w) = [CacheLoad; Fetch; CacheSave] /\
    outcome (main w) = rank fetched /\
    entry (final_fs (main w)) =
      Some {| body := Document fetched; mtime := now w;
              readable := cache_readable (fs w) |}.
Proof.
  unfold main.
  destruct (load_problems_from_cache (fs w) (now w)) as [raw|e]; [|auto].
  destruct (truthy raw); [auto|].
  destruct (fetch_problems_from_api_rest (response w)) as [fetched|e] eqn:Ef;
    [|auto].
  destruct (truthy fetched) eqn:Et; [|auto].
  unfold save_problems_to_cache.
  destruct (py_len fetched) as [n|e]; [|auto].
  destruct (can_open_w (fs w)); [|auto].
  right. exists fetched. simpl. auto 6.
Qed.

(** X20.  Without a usable cache and without an answer from the API (a
    failed request or a body that is not JSON) [main] returns early: no
    exception, no write to the cache, nothing ranked. *)
Theorem main_no_data (w : world) :
  cache_absent_or_expired (fs w) (now w) ->
  response w = RequestFailed \/ response w = NotJson ->
  main w =
  {| final_fs := fs w; events := [CacheLoad; Fetch]; outcome := Ok None |}.
Proof.
  intros Hmiss Hresp. unfold main. rewrite (load_miss _ _ Hmiss). simpl.
  destruct Hresp as [-> | ->]; reflexivity.
Qed.

End MainFacts.

Lemma main_cache_hit_witness :
  main (H := ascii_builtins) fresh_cache_world =
  {| final_fs := fs fresh_cache_world; events := [CacheLoad];
     outcome := rank (H := ascii_builtins) answer_records |}.
Proof.
  apply (main_cache_hit (H := ascii_builtins) fresh_cache_world
           fresh_cache_file answer_records); reflexivity.
Defined.

Lemma main_round_trip_witness :
  let first := main (H := ascii_builtins) no_cache_world in
  let second :=
    main (H := ascii_builtins)
      {| fs := final_fs first; now := 100; response := RequestFailed |} in
  events first = [CacheLoad; Fetch; CacheSave] /\
  events second = [CacheLoad] /\
  outcome second = outcome first /\
  final_fs second = final_fs first.
Proof.
  apply (main_round_trip (H := ascii_builtins) no_cache_world answer_records 1
           100 RequestFailed); reflexivity.
Defined.

Lemma main_no_data_witness :
  main (H := ascii_builtins) offline_world =
  {| final_fs := fs offline_world; events := [CacheLoad; Fetch];
     outcome := Ok None |}.
Proof.
  apply (main_no_data (H := ascii_builtins) offline_world).
  - exact I.
  - left. reflexivity.
Defined.
